(** * survey_anim: the three binary decoders of the animation survey

    A shallow embedding of [survey_anim.py]: the catalog decoder
    [parse_sceneobjinfo_bin], the placement-index decoder [parse_obj_file]
    and the container decoder [parse_lmo_animations], together with the
    [struct.unpack_from] primitive they are built on.

    Python integers are unbounded, so every offset computation is exact
    arithmetic on [Z]. A file is the list of its bytes. A raised exception is
    a result of its own ([Raise]), so that "never raises" is a statement
    about the value a decoder returns. *)

From Stdlib Require Import ZArith List Lia Bool.
From Stdlib Require Import Init.Byte Strings.Byte.
From stdpp Require Import base decidable numbers option list gmap sets.

Local Open Scope Z_scope.

(** ** Exceptions and results *)

Inductive exn : Type :=
| StructError   (* struct.error: the buffer is too short for the format *)
| IndexError.   (* a list subscript out of range *)

Inductive res (A : Type) : Type :=
| Ok (a : A)
| Raise (e : exn).
Arguments Ok {A} a.
Arguments Raise {A} e.

#[global] Instance res_ret : MRet res := λ A a, Ok a.
#[global] Instance res_bind : MBind res := λ A B f m,
  match m with
  | Ok a => f a
  | Raise e => Raise e
  end.

(** ** Control flow of a loop body

    A [for] loop body either falls through to the next iteration (also what
    [continue] does) or leaves the loop ([break]). *)

Inductive flow : Type := Next | Break.

(** [for_range body n i st]: the [n] iterations [i, i+1, ...] of a loop
    whose body maps the loop-carried state to a new one. *)
Fixpoint for_range {St : Type} (body : Z → St → res (flow * St))
    (n : nat) (i : Z) (st : St) : res St :=
  match n with
  | O => Ok st
  | S n' =>
      match body i st with
      | Raise e => Raise e
      | Ok (Break, st') => Ok st'
      | Ok (Next, st') => for_range body n' (i + 1) st'
      end
  end.

(** [for i in range(count): body]; an empty range when [count <= 0]. *)
Definition range_loop {St : Type} (count : Z)
    (body : Z → St → res (flow * St)) (st : St) : res St :=
  for_range body (Z.to_nat count) 0 st.

(** ** Bytes and [struct.unpack_from] *)

#[global] Instance byte_eq_dec : EqDecision byte := Byte.byte_eq_dec.

Definition byte_val (b : byte) : Z := Z.of_N (Byte.to_N b).

(** Little-endian value of a byte string. *)
Fixpoint le_uint (bs : list byte) : Z :=
  match bs with
  | [] => 0
  | b :: rest => byte_val b + 256 * le_uint rest
  end.

(** Two's complement reading of a [bits]-wide unsigned value. *)
Definition to_signed (bits : Z) (v : Z) : Z :=
  if decide (v < 2 ^ (bits - 1)) then v else v - 2 ^ bits.

(** [data[start : start + width]] for [0 <= start]. *)
Definition slice (data : list byte) (start : Z) (width : nat) : list byte :=
  take width (drop (Z.to_nat start) data).

(** The [width] bytes [struct.unpack_from] decodes at [offset]. A negative
    offset counts from the end of the buffer; [struct.error] is raised when
    fewer than [width] bytes remain. *)
Definition unpack_from (width : nat) (data : list byte) (offset : Z)
    : res (list byte) :=
  let len := Z.of_nat (length data) in
  if decide (offset < 0) then
    if decide (offset + len < 0) then Raise StructError
    else if decide (len - (offset + len) < Z.of_nat width) then Raise StructError
    else Ok (slice data (offset + len) width)
  else if decide (len - offset < Z.of_nat width) then Raise StructError
  else Ok (slice data offset width).

(** ["<I"] *)
Definition unpack_u32 (data : list byte) (offset : Z) : res Z :=
  bs ← unpack_from 4 data offset; mret (le_uint bs).

(** ["<i"] *)
Definition unpack_i32 (data : list byte) (offset : Z) : res Z :=
  bs ← unpack_from 4 data offset; mret (to_signed 32 (le_uint bs)).

(** ["<h"] *)
Definition unpack_i16 (data : list byte) (offset : Z) : res Z :=
  bs ← unpack_from 2 data offset; mret (to_signed 16 (le_uint bs)).

(** ["<III"] *)
Definition unpack_III (data : list byte) (offset : Z) : res (Z * Z * Z) :=
  bs ← unpack_from 12 data offset;
  mret (le_uint (take 4 bs), le_uint (take 4 (drop 4 bs)),
        le_uint (take 4 (drop 8 bs))).

(** ["<IIII"] *)
Definition unpack_IIII (data : list byte) (offset : Z)
    : res (Z * Z * Z * Z) :=
  bs ← unpack_from 16 data offset;
  mret (le_uint (take 4 bs), le_uint (take 4 (drop 4 bs)),
        le_uint (take 4 (drop 8 bs)), le_uint (take 4 (drop 12 bs))).

(** ** The container decoder: [parse_lmo_animations] *)

Definition OBJ_TYPE_GEOMETRY : Z := 1.

Record AnimInfo : Type := mkAnimInfo {
  bone_size : Z;
  mat_size : Z;
  mtlopac_sizes : list (Z * Z);       (* (subset, size) *)
  texuv_sizes : list (Z * Z * Z);     (* (subset, stage, size) *)
  teximg_sizes : list (Z * Z * Z)     (* (subset, stage, size) *)
}.

(** The size-array format fixed by the file version. *)
Record AnimFormat : Type := mkAnimFormat {
  n_entries : Z;
  has_mtlopac : bool;
  mtlopac_count : Z
}.

Definition anim_format (lmo_version : Z) : AnimFormat :=
  if decide (lmo_version >= 0x1005) then mkAnimFormat 146 true 16
  else mkAnimFormat 130 false 0.

Definition header_bytes (fmt : AnimFormat) : Z := n_entries fmt * 4.

(** [for s in range(mtlopac_count)]: the nonzero opacity sizes. *)
Definition read_mtlopac (data : list byte) (off : Z) (count : Z)
    : res (list (Z * Z)) :=
  range_loop count (λ s acc,
    val ← unpack_u32 data (off + s * 4);
    mret (Next, if decide (val > 0) then acc ++ [(s, val)] else acc)) [].

(** [for s in range(16): for t in range(4)]: the nonzero sizes of a
    16 x 4 grid. *)
Definition read_grid (data : list byte) (off : Z) : res (list (Z * Z * Z)) :=
  range_loop 16 (λ s acc,
    acc' ← range_loop 4 (λ t acc,
      val ← unpack_u32 data (off + (s * 4 + t) * 4);
      mret (Next, if decide (val > 0) then acc ++ [(s, t, val)] else acc)) acc;
    mret (Next, acc')) [].

(** The size array read at [anim_offset]. *)
Definition read_anim_info (data : list byte) (fmt : AnimFormat)
    (anim_offset : Z) : res AnimInfo :=
  let off := anim_offset in
  bone ← unpack_u32 data off;
  mat ← unpack_u32 data (off + 4);
  let off := off + 8 in
  '(opac, off) ←
    (if has_mtlopac fmt then
       l ← read_mtlopac data off (mtlopac_count fmt);
       mret (l, off + mtlopac_count fmt * 4)
     else mret ([], off));
  uv ← read_grid data off;
  let off := off + 16 * 4 * 4 in
  img ← read_grid data off;
  mret (mkAnimInfo bone mat opac uv img).

(** The builtin [sum] over a list of integers. *)
Definition sumZ (l : list Z) : Z := fold_left Z.add l 0.

(** [info.bone_size + info.mat_size + sum(...) + sum(...) + sum(...)] *)
Definition anim_total (info : AnimInfo) : Z :=
  bone_size info + mat_size info
  + sumZ (snd <$> mtlopac_sizes info)
  + sumZ (snd <$> texuv_sizes info)
  + sumZ (snd <$> teximg_sizes info).

(** Truth value of [info.texuv_sizes or info.teximg_sizes or
    info.mtlopac_sizes]. *)
Definition has_channel_data (info : AnimInfo) : bool :=
  negb (bool_decide (texuv_sizes info = []))
  || negb (bool_decide (teximg_sizes info = []))
  || negb (bool_decide (mtlopac_sizes info = [])).

(** The body of [for i in range(obj_num)]. *)
Definition lmo_object (data : list byte) (fmt : AnimFormat) (i : Z)
    (results : list (Z * AnimInfo)) : res (flow * list (Z * AnimInfo)) :=
  let len := Z.of_nat (length data) in
  let tbl_off := 8 + i * 12 in
  if decide (tbl_off + 12 > len) then mret (Break, results) else
  '(typ, addr, size) ← unpack_III data tbl_off;
  if decide (typ ≠ OBJ_TYPE_GEOMETRY) then mret (Next, results) else
  if decide (addr + 116 > len) then mret (Next, results) else
  let sizes_offset := addr + 100 in
  if decide (sizes_offset + 16 > len) then mret (Next, results) else
  '(mtl_size, mesh_size, helper_size, anim_size) ←
    unpack_IIII data sizes_offset;
  if decide (anim_size = 0) then mret (Next, results) else
  let anim_offset := addr + 116 + mtl_size + mesh_size + helper_size in
  if decide (anim_offset + header_bytes fmt > len) then mret (Next, results) else
  info ← read_anim_info data fmt anim_offset;
  let expected := header_bytes fmt + anim_total info in
  if decide (expected ≠ anim_size) then mret (Next, results) else
  if has_channel_data info then mret (Next, results ++ [(i, info)])
  else mret (Next, results).

Definition parse_lmo_animations (data : list byte)
    : res (list (Z * AnimInfo)) :=
  if decide (Z.of_nat (length data) < 8) then mret [] else
  lmo_version ← unpack_u32 data 0;
  obj_num ← unpack_u32 data 4;
  if decide (lmo_version = 0) then mret [] else
  if decide (obj_num > 500) then mret [] else
  range_loop obj_num (lmo_object data (anim_format lmo_version)) [].

(** What a reported table went through: entry [i] of the directory is a
    geometry entry whose preamble and size array lie inside the buffer, and
    the sizes of the array add up to the declared animation size. *)
Definition decoded_at (data : list byte) (fmt : AnimFormat) (i : Z)
    (info : AnimInfo) : Prop :=
  ∃ typ addr size mtl_size mesh_size helper_size anim_size,
    unpack_III data (8 + i * 12) = Ok (typ, addr, size)
    ∧ typ = OBJ_TYPE_GEOMETRY
    ∧ addr + 116 ≤ Z.of_nat (length data)
    ∧ unpack_IIII data (addr + 100)
      = Ok (mtl_size, mesh_size, helper_size, anim_size)
    ∧ anim_size ≠ 0
    ∧ read_anim_info data fmt (addr + 116 + mtl_size + mesh_size + helper_size)
      = Ok info
    ∧ header_bytes fmt + anim_total info = anim_size
    ∧ has_channel_data info = true.

(** ** The placement-index decoder: [parse_obj_file] *)

(** [l[s]] on a Python list; a negative subscript counts from the end. *)
Definition list_get {A : Type} (l : list A) (s : Z) : res A :=
  let s' := if decide (s < 0) then s + Z.of_nat (length l) else s in
  if decide (s' < 0) then Raise IndexError
  else match l !! Z.to_nat s' with
       | Some x => Ok x
       | None => Raise IndexError
       end.

(** The packed 16-bit field of a placement entry: [obj_type] is
    [(raw_type_id & 0xFFFF) >> 14], [obj_id] is
    [(raw_type_id & 0xFFFF) & 0x3FFF]; the pair is kept when
    [obj_id > 0 and obj_type <= 1]. *)
Definition obj_type_of (raw_type_id : Z) : Z :=
  Z.shiftr (Z.land raw_type_id 0xFFFF) 14.

Definition obj_id_of (raw_type_id : Z) : Z :=
  Z.land (Z.land raw_type_id 0xFFFF) 0x3FFF.

Definition decode_placement (raw_type_id : Z) : option (Z * Z) :=
  let obj_type := obj_type_of raw_type_id in
  let obj_id := obj_id_of raw_type_id in
  if decide (obj_id > 0 ∧ obj_type <= 1) then Some (obj_type, obj_id)
  else None.

(** The body of [for j in range(count)]. *)
Definition obj_slot (data : list byte) (offset : Z) (j : Z)
    (placements : gset (Z * Z)) : res (flow * gset (Z * Z)) :=
  let entry_off := offset + j * 20 in
  if decide (entry_off + 20 > Z.of_nat (length data)) then
    mret (Break, placements)
  else
    raw_type_id ← unpack_i16 data entry_off;
    match decode_placement raw_type_id with
    | Some p => mret (Next, {[ p ]} ∪ placements)
    | None => mret (Next, placements)
    end.

(** The body of the second [for s in range(section_cnt)]. *)
Definition obj_section (data : list byte)
    (section_offsets section_counts : list Z) (s : Z)
    (placements : gset (Z * Z)) : res (flow * gset (Z * Z)) :=
  count ← list_get section_counts s;
  offset ← list_get section_offsets s;
  if decide (count <= 0 ∨ offset <= 0) then mret (Next, placements) else
  placements' ← range_loop count (obj_slot data offset) placements;
  mret (Next, placements').

(** The body of the first [for s in range(section_cnt)]: the section
    index, [offset(4) + count(4)] per section. *)
Definition obj_index_entry (data : list byte) (idx_start : Z) (s : Z)
    (idx : list Z * list Z) : res (flow * (list Z * list Z)) :=
  let off := idx_start + s * 8 in
  o ← unpack_i32 data off;
  c ← unpack_i32 data (off + 4);
  mret (Next, (idx.1 ++ [o], idx.2 ++ [c])).

(** The placement set built by [parse_obj_file]. *)
Definition obj_placements (data : list byte) : res (gset (Z * Z)) :=
  if decide (Z.of_nat (length data) < 44) then mret ∅ else
  version ← unpack_i32 data 16;
  if decide (version ≠ 600) then mret ∅ else
  section_cnt_x ← unpack_i32 data 24;
  section_cnt_y ← unpack_i32 data 28;
  let section_cnt := section_cnt_x * section_cnt_y in
  let idx_start := 44 in
  if decide (idx_start + section_cnt * 8 > Z.of_nat (length data)) then
    mret ∅
  else
    '(section_offsets, section_counts) ←
      range_loop section_cnt (obj_index_entry data idx_start) ([], []);
    range_loop section_cnt
      (obj_section data section_offsets section_counts) ∅.

(** [return list(placements)] *)
Definition parse_obj_file (data : list byte) : res (list (Z * Z)) :=
  placements ← obj_placements data; mret (elements placements).

(** ** The catalog decoder: [parse_sceneobjinfo_bin] *)

(** A Python [str]: a sequence of code points. *)
Definition str : Type := list N.

(** [name_bytes.find(b"\x00")]: the index of the first zero byte, or -1. *)
Fixpoint find_zero (bs : list byte) : Z :=
  match bs with
  | [] => -1
  | b :: rest =>
      if decide (b = x00%byte) then 0
      else let r := find_zero rest in if decide (r < 0) then -1 else 1 + r
  end.

Section Catalog.
(** The text operations of the Python runtime, all of them total:
    [bytes.decode("utf-8", errors="replace")], [str.strip] and
    [str.lower]. *)
Variable decode_utf8_replace : list byte → str.
Variable strip : str → str.
Variable lower : str → str.

(** The name of a record: [szDataName], at most 72 bytes at offset 8,
    cut at the first zero byte, decoded, stripped and lowercased. *)
Definition entry_name (chunk : list byte) : str :=
  let name_bytes := slice chunk 8 72 in
  let end_ := find_zero name_bytes in
  let name_bytes :=
    if decide (end_ >= 0) then take (Z.to_nat end_) name_bytes
    else name_bytes in
  lower (strip (decode_utf8_replace name_bytes)).

(** The body of [for i in range(entry_count)]; [data] is the buffer after
    the leading width field. *)
Definition sceneobj_entry (data : list byte) (entry_size : Z) (i : Z)
    (result : gmap Z str) : res (flow * gmap Z str) :=
  let offset := i * entry_size in
  if decide (offset + entry_size > Z.of_nat (length data)) then
    mret (Break, result)
  else
    let chunk := slice data offset (Z.to_nat entry_size) in
    b_exist ← unpack_i32 chunk 0;
    if decide (b_exist = 0) then mret (Next, result) else
    obj_id ← unpack_u32 chunk 100;
    let filename := entry_name chunk in
    if decide (filename ≠ []) then mret (Next, <[obj_id := filename]> result)
    else mret (Next, result).

(** [data] is the content of the catalog file (the file exists). *)
Definition parse_sceneobjinfo_bin (data : list byte) : res (gmap Z str) :=
  if decide (Z.of_nat (length data) < 4) then mret ∅ else
  entry_size ← unpack_u32 data 0;
  if decide (entry_size = 0) then mret ∅ else
  let data := drop 4 data in
  let entry_count := Z.of_nat (length data) `div` entry_size in
  range_loop entry_count (sceneobj_entry data entry_size) ∅.

(** Record [i] of the catalog as the decoder sees it: its id and name when
    it is included (nonzero [bExist], non-empty name). [data] is the buffer
    after the leading width field, [entry_size] at least 104. *)
Definition included_record (data : list byte) (entry_size : Z) (i : Z)
    : option (Z * str) :=
  let chunk := slice data (i * entry_size) (Z.to_nat entry_size) in
  if decide (to_signed 32 (le_uint (slice chunk 0 4)) = 0) then None
  else if decide (entry_name chunk ≠ []) then
    Some (le_uint (slice chunk 100 4), entry_name chunk)
  else None.

(** Record [k] is the last of the first [n] records that is included with
    the id [obj_id], and its name is [name]. *)
Definition last_included (data : list byte) (entry_size : Z) (n : Z)
    (obj_id : Z) (name : str) : Prop :=
  ∃ k, 0 ≤ k < n
       ∧ included_record data entry_size k = Some (obj_id, name)
       ∧ ∀ k' name', k < k' < n →
           included_record data entry_size k' ≠ Some (obj_id, name').
End Catalog.


(** ** Building buffers for worked examples *)

Definition byte_of (v : Z) : byte :=
  default x00%byte (Byte.of_N (Z.to_N (v mod 256))).

Definition u32_le (v : Z) : list byte :=
  [byte_of v; byte_of (v / 256); byte_of (v / 65536); byte_of (v / 16777216)].

Definition zeros (n : nat) : list byte := replicate n x00%byte.

(** A version 0x1000 container holding one geometry object at offset 20
    whose only animation entry is texuv[0][0] = 128, so that the sizes add
    up to 520 + 128 = 648. [declared] is the size field of the directory
    entry and [anim_size] the animation size stated by the object. The
    buffer is 656 bytes long. *)
Definition one_object_file (declared anim_size : Z) : list byte :=
  u32_le 0x1000 ++ u32_le 1
  ++ u32_le 1 ++ u32_le 20 ++ u32_le declared
  ++ zeros 100 ++ u32_le 0 ++ u32_le 0 ++ u32_le 0 ++ u32_le anim_size
  ++ u32_le 0 ++ u32_le 0 ++ u32_le 128 ++ zeros 508.

Definition uv_only_info : AnimInfo := mkAnimInfo 0 0 [] [(0, 0, 128)] [].

(** A version 0x1000 container of 636 bytes whose directory has nine
    entries (bytes 8 to 116) and whose only geometry entry, entry 0, places
    its object at offset 0, on top of the header and the directory: the size
    quad of the object, at bytes 100 to 116, is made of the size field of
    entry 7 and of the three fields of entry 8. [declared8] is the size
    field of entry 8, read back as the animation size of the object. *)
Definition overlap_file (declared8 : Z) : list byte :=
  u32_le 0x1000 ++ u32_le 9
  ++ u32_le 1 ++ u32_le 0 ++ u32_le 0
  ++ zeros 84
  ++ u32_le 0 ++ u32_le 0 ++ u32_le declared8
  ++ u32_le 0 ++ u32_le 0 ++ u32_le 128 ++ zeros 508.

(** ** Buffers that differ in the size fields of the directory *)

(** The object count field of a container. *)
Definition obj_num_of (data : list byte) : Z := le_uint (slice data 4 4).

(** Byte position [p] lies in the size field (bytes 8 to 12) of one of the
    first [obj_num] 12-byte directory entries, which start at byte 8. *)
Definition size_field (obj_num : Z) (p : Z) : bool :=
  bool_decide (8 ≤ p ∧ (p - 8) `div` 12 < obj_num ∧ 8 ≤ (p - 8) `mod` 12).

(** [d1] and [d2], read from position [p] on, have the same length and the
    same bytes except at positions where [may_differ] holds. *)
Fixpoint differ_only_at (may_differ : Z → bool) (p : Z)
    (d1 d2 : list byte) : bool :=
  match d1, d2 with
  | [], [] => true
  | b1 :: r1, b2 :: r2 =>
      (bool_decide (b1 = b2) || may_differ p)
      && differ_only_at may_differ (p + 1) r1 r2
  | _, _ => false
  end.

(** [d1] and [d2] have the same length and the same bytes from [lim] on. *)
Definition agree_from (lim : Z) (d1 d2 : list byte) : Prop :=
  length d1 = length d2
  ∧ ∀ k : nat, lim ≤ Z.of_nat k → d1 !! k = d2 !! k.

(** ** The placements a map file holds

    The fields the placement decoder reads, as functions of the buffer. *)

Definition section_cnt_of (data : list byte) : Z :=
  to_signed 32 (le_uint (slice data 24 4))
  * to_signed 32 (le_uint (slice data 28 4)).

Definition sec_offset (data : list byte) (s : Z) : Z :=
  to_signed 32 (le_uint (slice data (44 + s * 8) 4)).

Definition sec_count (data : list byte) (s : Z) : Z :=
  to_signed 32 (le_uint (slice data (44 + s * 8 + 4) 4)).

(** The header is accepted: 44 bytes at least, version 600, and a section
    index that fits. *)
Definition obj_header_ok (data : list byte) : Prop :=
  44 ≤ Z.of_nat (length data)
  ∧ to_signed 32 (le_uint (slice data 16 4)) = 600
  ∧ 44 + section_cnt_of data * 8 ≤ Z.of_nat (length data).

(** Slot [j] of the section at [offset] lies inside the buffer and its
    packed field decodes to the kept pair [p]. *)
Definition slot_hit (data : list byte) (offset j : Z) (p : Z * Z) : Prop :=
  offset + j * 20 + 20 ≤ Z.of_nat (length data)
  ∧ decode_placement (to_signed 16 (le_uint (slice data (offset + j * 20) 2)))
    = Some p.

(** [p] is placed by slot [j] of section [s]. *)
Definition placed_at (data : list byte) (s j : Z) (p : Z * Z) : Prop :=
  0 ≤ s < section_cnt_of data
  ∧ sec_count data s > 0 ∧ sec_offset data s > 0
  ∧ 0 ≤ j < sec_count data s
  ∧ slot_hit data (sec_offset data s) j p.

(** A map file with a 2 x 1 section grid; each of the two sections has one
    slot, at offsets 60 and 80, and both slots hold the packed value 42,
    that is the pair (0, 42). *)
Definition two_section_file : list byte :=
  zeros 16 ++ u32_le 600 ++ u32_le 0 ++ u32_le 2 ++ u32_le 1 ++ zeros 12
  ++ u32_le 60 ++ u32_le 1 ++ u32_le 80 ++ u32_le 1
  ++ u32_le 42 ++ zeros 16 ++ u32_le 42 ++ zeros 16.

(** Text operations to run the catalog decoder on worked examples: one
    code point per byte, no stripping and no case change, which is what the
    Python operations do on lowercase ASCII names without blanks. *)
Definition decode_bytewise (bs : list byte) : str := Byte.to_N <$> bs.
Definition keep_text (s : str) : str := s.

(** A 104-byte catalog record. *)
Definition catalog_record (b_exist : Z) (name : list byte) (obj_id : Z)
    : list byte :=
  u32_le b_exist ++ zeros 4 ++ take 72 (name ++ zeros 72) ++ zeros 20
  ++ u32_le obj_id.

(** A catalog of two records that both carry the id 7: "ab", then "d". *)
Definition two_record_catalog : list byte :=
  u32_le 104
  ++ catalog_record 1 [x61; x62]%byte 7
  ++ catalog_record 1 [x64]%byte 7.

(** A catalog that declares 4-byte records and holds one of them, with a
    nonzero [bExist]. *)
Definition short_record_catalog : list byte := u32_le 4 ++ u32_le 1.

(** ** The size array, cell by cell *)

(** The little-endian 32-bit value at [offset]. *)
Definition u32_at (data : list byte) (offset : Z) : Z :=
  le_uint (slice data offset 4).

(** The nonzero cells of [count] opacity slots at [off], with their
    subset index, in the order of the slots. *)
Definition mtlopac_entries (data : list byte) (off count : Z)
    : list (Z * Z) :=
  s ← seqZ 0 count;
  if decide (u32_at data (off + s * 4) > 0)
  then [(s, u32_at data (off + s * 4))] else [].

(** The nonzero cells of a 16 x 4 grid at [off], with their subset and
    stage index, row by row. *)
Definition grid_entries (data : list byte) (off : Z) : list (Z * Z * Z) :=
  s ← seqZ 0 16;
  t ← seqZ 0 4;
  if decide (u32_at data (off + (s * 4 + t) * 4) > 0)
  then [(s, t, u32_at data (off + (s * 4 + t) * 4))] else [].

(** ** The header shape in the words of the specification

    The specification selects the shape of the animation header from the
    format version alone: 146 entries with a 16-slot opacity channel from
    version 0x1005 on, 130 entries and no opacity channel below. The table
    of an object is then the two leading sizes, the nonzero opacity slots
    (when the shape has them) and the nonzero cells of the two 16 x 4
    grids, read one after the other. *)

Definition spec_entries_count (format_version : Z) : Z :=
  if decide (format_version >= 0x1005) then 146 else 130.

Definition spec_table (data : list byte) (format_version off : Z)
    : AnimInfo :=
  if decide (format_version >= 0x1005) then
    mkAnimInfo (u32_at data off) (u32_at data (off + 4))
      (mtlopac_entries data (off + 8) 16)
      (grid_entries data (off + 72))
      (grid_entries data (off + 328))
  else
    mkAnimInfo (u32_at data off) (u32_at data (off + 4))
      []
      (grid_entries data (off + 8))
      (grid_entries data (off + 264)).

(** A container of 720 bytes with one geometry object at offset 20 whose
    size array has the value 7 in its third cell and zeros elsewhere: the
    first opacity slot under the 146-entry shape, the first cell of the uv
    grid under the 130-entry shape. [version] is the format version and
    [anim_size] the animation size stated by the object. *)
Definition versioned_file (version anim_size : Z) : list byte :=
  u32_le version ++ u32_le 1
  ++ u32_le 1 ++ u32_le 20 ++ u32_le 700
  ++ zeros 100 ++ u32_le 0 ++ u32_le 0 ++ u32_le 0 ++ u32_le anim_size
  ++ u32_le 0 ++ u32_le 0 ++ u32_le 7 ++ zeros 572.

(** ** The records of a catalog *)

(** The [bExist] flag of record [k]; [data] is the buffer after the
    leading width field. *)
Definition record_exists (data : list byte) (entry_size k : Z) : Z :=
  to_signed 32
    (le_uint (slice (slice data (k * entry_size) (Z.to_nat entry_size)) 0 4)).

(** The bytes of a record that are decoded as its name: [szDataName] up
    to its first zero byte. *)
Definition entry_name_bytes (chunk : list byte) : list byte :=
  let name_bytes := slice chunk 8 72 in
  let end_ := find_zero name_bytes in
  if decide (end_ >= 0) then take (Z.to_nat end_) name_bytes else name_bytes.

(** ** The bone/material scan of [main]

    The last part of [main] goes over the container files once more and
    counts those that have bone or material animation in some geometry
    object and were not stored by the first pass. [lmo_bone_mat_only] is
    the body of that loop for one file: [basename] is the lowercased base
    name of the file and [data] its content. *)

(** The body of [for i in range(obj_num)] of the scan. *)
Definition bone_mat_object (data : list byte) (i : Z)
    (has_bone_or_mat : bool) : res (flow * bool) :=
  let len := Z.of_nat (length data) in
  let tbl_off := 8 + i * 12 in
  if decide (tbl_off + 12 > len) then mret (Break, has_bone_or_mat) else
  '(typ, addr, size) ← unpack_III data tbl_off;
  if decide (typ ≠ OBJ_TYPE_GEOMETRY) then mret (Next, has_bone_or_mat) else
  if decide (addr + 116 > len) then mret (Next, has_bone_or_mat) else
  let sizes_offset := addr + 100 in
  if decide (sizes_offset + 16 > len) then mret (Next, has_bone_or_mat) else
  '(mtl_size, mesh_size, helper_size, anim_size) ←
    unpack_IIII data sizes_offset;
  if decide (anim_size = 0) then mret (Next, has_bone_or_mat) else
  let anim_offset := addr + 116 + mtl_size + mesh_size + helper_size in
  if decide (anim_offset + 8 > len) then mret (Next, has_bone_or_mat) else
  bone_sz ← unpack_u32 data anim_offset;
  mat_sz ← unpack_u32 data (anim_offset + 4);
  if decide (bone_sz > 0 ∨ mat_sz > 0) then mret (Break, true)
  else mret (Next, has_bone_or_mat).

(** [Ok true] when the file is counted in [bone_mat_only_count]. A file
    whose base name is a key of [lmo_anim_data] is passed over before it
    is opened. The version is read from the first 4 bytes, the object count
    from the whole content. *)
Definition lmo_bone_mat_only (lmo_anim_data : gmap str (list (Z * AnimInfo)))
    (basename : str) (data : list byte) : res bool :=
  if decide (is_Some (lmo_anim_data !! basename)) then mret false else
  let ver_bytes := take 4 data in
  if decide (Z.of_nat (length ver_bytes) < 4) then mret false else
  ver ← unpack_u32 ver_bytes 0;
  if decide (ver = 0) then mret false else
  obj_num ← unpack_u32 data 4;
  if decide (obj_num > 500) then mret false else
  let header_bytes := n_entries (anim_format ver) * 4 in
  range_loop obj_num (bone_mat_object data) false.

(** Directory entry [i] lies inside the buffer. *)
Definition entry_fits (data : list byte) (i : Z) : Prop :=
  8 + i * 12 + 12 ≤ Z.of_nat (length data).

(** Directory entry [i] is a geometry entry whose object has an animation
    block that starts inside the buffer with a nonzero bone size or a
    nonzero material size. *)
Definition bone_mat_hit (data : list byte) (i : Z) : Prop :=
  ∃ typ addr size mtl_size mesh_size helper_size anim_size,
    unpack_III data (8 + i * 12) = Ok (typ, addr, size)
    ∧ typ = OBJ_TYPE_GEOMETRY
    ∧ addr + 116 ≤ Z.of_nat (length data)
    ∧ unpack_IIII data (addr + 100)
      = Ok (mtl_size, mesh_size, helper_size, anim_size)
    ∧ anim_size ≠ 0
    ∧ addr + 116 + mtl_size + mesh_size + helper_size + 8
      ≤ Z.of_nat (length data)
    ∧ (u32_at data (addr + 116 + mtl_size + mesh_size + helper_size) > 0
       ∨ u32_at data (addr + 116 + mtl_size + mesh_size + helper_size + 4)
         > 0).

(** A version 0x1000 container with one geometry object whose animation
    block starts with the bone size [bone] and stops after its first 8
    bytes. The buffer is 144 bytes long. *)
Definition bone_only_file (bone : Z) : list byte :=
  u32_le 0x1000 ++ u32_le 1
  ++ u32_le 1 ++ u32_le 20 ++ u32_le 124
  ++ zeros 100 ++ u32_le 0 ++ u32_le 0 ++ u32_le 0 ++ u32_le 520
  ++ u32_le bone ++ u32_le 0.

(** A version 0x1000 container of 656 bytes with one geometry object that
    has bone animation of size 5 and a texture uv animation of size 128:
    a file that the first pass stores. *)
Definition bone_and_uv_file : list byte :=
  u32_le 0x1000 ++ u32_le 1
  ++ u32_le 1 ++ u32_le 20 ++ u32_le 636
  ++ zeros 100 ++ u32_le 0 ++ u32_le 0 ++ u32_le 0 ++ u32_le 653
  ++ u32_le 5 ++ u32_le 0 ++ u32_le 128 ++ zeros 508.

Definition bone_and_uv_info : AnimInfo :=
  mkAnimInfo 5 0 [] [(0, 0, 128)] [].

(** ** The first pass of [main] over the container files

    [main] takes the container files from a directory listing; here they
    are given as the list of their lowercased base names and contents, in
    the order of the listing. *)

Record Survey : Type := mkSurvey {
  lmo_anim_data : gmap str (list (Z * AnimInfo));
  total_scanned : Z;
  total_with_anim : Z;
  total_with_texuv : Z;
  total_with_teximg : Z;
  total_with_mtlopac : Z;
  skipped_v0 : Z
}.

Definition survey_start : Survey := mkSurvey ∅ 0 0 0 0 0 0.

(** [any(field(a) for _, a in anims)]: some table has a non-empty list. *)
Definition any_nonempty {A : Type} (field : AnimInfo → list A)
    (anims : list (Z * AnimInfo)) : bool :=
  existsb (λ p, match field p.2 with [] => false | _ => true end) anims.

(** The body of [for lmo_path in lmo_files]. *)
Definition survey_file (basename : str) (data : list byte) (sv : Survey)
    : res Survey :=
  let scanned := total_scanned sv + 1 in
  let ver_bytes := take 4 data in
  if decide (Z.of_nat (length ver_bytes) < 4) then
    mret (mkSurvey (lmo_anim_data sv) scanned (total_with_anim sv)
            (total_with_texuv sv) (total_with_teximg sv)
            (total_with_mtlopac sv) (skipped_v0 sv))
  else
  ver ← unpack_u32 ver_bytes 0;
  if decide (ver = 0) then
    mret (mkSurvey (lmo_anim_data sv) scanned (total_with_anim sv)
            (total_with_texuv sv) (total_with_teximg sv)
            (total_with_mtlopac sv) (skipped_v0 sv + 1))
  else
  anims ← parse_lmo_animations data;
  match anims with
  | [] =>
      mret (mkSurvey (lmo_anim_data sv) scanned (total_with_anim sv)
              (total_with_texuv sv) (total_with_teximg sv)
              (total_with_mtlopac sv) (skipped_v0 sv))
  | _ =>
      let has_texuv := any_nonempty texuv_sizes anims in
      let has_teximg := any_nonempty teximg_sizes anims in
      let has_mtlopac := any_nonempty mtlopac_sizes anims in
      mret (mkSurvey (<[basename := anims]> (lmo_anim_data sv)) scanned
              (total_with_anim sv + 1)
              (if has_texuv then total_with_texuv sv + 1
               else total_with_texuv sv)
              (if has_teximg then total_with_teximg sv + 1
               else total_with_teximg sv)
              (if has_mtlopac then total_with_mtlopac sv + 1
               else total_with_mtlopac sv)
              (skipped_v0 sv))
  end.

Fixpoint survey_files (lmo_files : list (str * list byte)) (sv : Survey)
    : res Survey :=
  match lmo_files with
  | [] => mret sv
  | (basename, data) :: rest =>
      sv' ← survey_file basename data sv; survey_files rest sv'
  end.

(** What the first pass has established after the files [seen]. *)
Definition survey_inv (seen : list (str * list byte)) (sv : Survey) : Prop :=
  total_scanned sv = Z.of_nat (length seen)
  ∧ (∀ name anims, lmo_anim_data sv !! name = Some anims →
       anims ≠ []
       ∧ ∃ data, (name, data) ∈ seen ∧ parse_lmo_animations data = Ok anims)
  ∧ (∀ name data anims, (name, data) ∈ seen →
       parse_lmo_animations data = Ok anims → anims ≠ [] →
       is_Some (lmo_anim_data sv !! name))
  ∧ (0 ≤ skipped_v0 sv ∧ 0 ≤ total_with_texuv sv ≤ total_with_anim sv
     ∧ 0 ≤ total_with_teximg sv ≤ total_with_anim sv
     ∧ 0 ≤ total_with_mtlopac sv ≤ total_with_anim sv
     ∧ total_with_anim sv
       ≤ total_with_texuv sv + total_with_teximg sv + total_with_mtlopac sv
     ∧ total_with_anim sv + skipped_v0 sv ≤ total_scanned sv
     ∧ Z.of_nat (size (lmo_anim_data sv)) ≤ total_with_anim sv).

(** ** The cross-reference of [main]

    A loop over the items of a dictionary or over a set is a fold over a
    list of them; the order is that of [map_to_list] and [elements], which
    stands for the order in which Python goes through them. *)

(** [d[key].add(x)] on a [defaultdict(set)]. *)
Definition add_at (d : gmap str (gset Z)) (key : str) (x : Z)
    : gmap str (gset Z) :=
  <[key := {[x]} ∪ default ∅ (d !! key)]> d.

(** [for obj_id, lmo_name in obj_id_to_lmo.items():
       lmo_to_obj_ids[lmo_name].add(obj_id)] *)
Definition reverse_catalog (obj_id_to_lmo : gmap Z str)
    : gmap str (gset Z) :=
  foldl (λ d item, add_at d item.2 item.1) ∅ (map_to_list obj_id_to_lmo).

(** [for lmo_name in lmo_anim_data:
       for obj_id in lmo_to_obj_ids.get(lmo_name, set()):
           animated_obj_ids.add(obj_id)
           obj_id_to_anim_lmo[obj_id] = lmo_name] *)
Definition animated_objects {V : Type} (lmo_anim_data : gmap str V)
    (lmo_to_obj_ids : gmap str (gset Z)) : gset Z * gmap Z str :=
  foldl (λ st lmo_name,
           foldl (λ st' obj_id,
                    ({[obj_id]} ∪ st'.1, <[obj_id := lmo_name]> st'.2))
             st (elements (default ∅ (lmo_to_obj_ids !! lmo_name))))
    (∅, ∅) (map_to_list lmo_anim_data).*1.

(** The body of [for obj_path in obj_files], after the file was parsed:
    the count of model placements of the map, and the animated ids among
    them. *)
Definition survey_map (animated_obj_ids : gset Z) (map_name : str)
    (placements : list (Z * Z))
    (st : gmap str (gset Z) * gmap str Z) : gmap str (gset Z) * gmap str Z :=
  let model_placements := filter (λ p, p.1 = 0) placements in
  let map_model_counts :=
    <[map_name := Z.of_nat (length model_placements)]> st.2 in
  let map_to_animated :=
    foldl (λ d p, if decide (p.1 = 0 ∧ p.2 ∈ animated_obj_ids)
                  then add_at d map_name p.2 else d)
      st.1 placements in
  (map_to_animated, map_model_counts).

(** The map files are given as the list of their names and contents. *)
Fixpoint survey_maps (animated_obj_ids : gset Z)
    (obj_files : list (str * list byte))
    (st : gmap str (gset Z) * gmap str Z)
    : res (gmap str (gset Z) * gmap str Z) :=
  match obj_files with
  | [] => mret st
  | (map_name, data) :: rest =>
      placements ← parse_obj_file data;
      survey_maps animated_obj_ids rest
        (survey_map animated_obj_ids map_name placements st)
  end.

(** The sets of a dictionary filled by [add_at] are never empty. *)
Definition no_empty_set (d : gmap str (gset Z)) : Prop :=
  ∀ name ids, d !! name = Some ids → ids ≠ ∅.


(** ** The channel usage tables of [main]

    For each channel, [main] counts per key (a subset and stage, or a
    subset for the opacity channel) the files that show it. The three
    tables are built the same way; [keys_of] gives the keys of a table in
    the channel. *)

(** [seen = set(); for _, info in anims: for ... in field: seen.add(key)] *)
Definition seen_keys `{Countable K} (keys_of : AnimInfo → list K)
    (anims : list (Z * AnimInfo)) : gset K :=
  foldl (λ seen p, foldl (λ seen key, {[key]} ∪ seen) seen (keys_of p.2))
    ∅ anims.

(** [usage[key] += 1] on a [defaultdict(int)]. *)
Definition count_up `{Countable K} (usage : gmap K Z) (key : K) : gmap K Z :=
  <[key := default 0 (usage !! key) + 1]> usage.

(** [for basename, anims in lmo_anim_data.items():
       ...
       for key in seen: usage[key] += 1] *)
Definition channel_usage `{Countable K} (keys_of : AnimInfo → list K)
    (lmo_anim_data : gmap str (list (Z * AnimInfo))) : gmap K Z :=
  foldl (λ usage item,
           foldl count_up usage (elements (seen_keys keys_of item.2)))
    ∅ (map_to_list lmo_anim_data).

Definition texuv_keys (info : AnimInfo) : list (Z * Z) :=
  (λ e, (e.1.1, e.1.2)) <$> texuv_sizes info.
Definition teximg_keys (info : AnimInfo) : list (Z * Z) :=
  (λ e, (e.1.1, e.1.2)) <$> teximg_sizes info.
Definition mtlopac_keys (info : AnimInfo) : list Z :=
  (λ e, e.1) <$> mtlopac_sizes info.

Definition texuv_subsets := channel_usage texuv_keys.
Definition teximg_subsets := channel_usage teximg_keys.
Definition mtlopac_subsets := channel_usage mtlopac_keys.


(** ** From the three kinds of files to the animated buildings of a map

    What [main] computes between its reports: the first pass over the
    container files, the catalog, the reverse map and the animated ids,
    then the pass over the map files. [catalog] is the content of the
    catalog file. *)
Section Main.
Variable decode_utf8_replace : list byte → str.
Variables strip lower : str → str.

Definition animated_buildings (catalog : list byte)
    (lmo_files obj_files : list (str * list byte))
    : res (gmap str (gset Z)) :=
  sv ← survey_files lmo_files survey_start;
  obj_id_to_lmo ←
    parse_sceneobjinfo_bin decode_utf8_replace strip lower catalog;
  let lmo_to_obj_ids := reverse_catalog obj_id_to_lmo in
  let animated := animated_objects (lmo_anim_data sv) lmo_to_obj_ids in
  st ← survey_maps animated.1 obj_files (∅, ∅);
  mret st.1.
End Main.

(** A catalog with one record: id 42, name "a". *)
Definition one_record_catalog : list byte :=
  u32_le 104 ++ catalog_record 1 [x61]%byte 42.


(** * Properties *)

(** ** The result monad and loops *)

Lemma bind_Ok {A B : Type} (a : A) (f : A → res B) : (Ok a ≫= f) = f a.
Proof. reflexivity. Qed.

Lemma bind_Raise {A B : Type} (e : exn) (f : A → res B) :
  (Raise e ≫= f) = Raise e.
Proof. reflexivity. Qed.

Lemma bind_Ok_inv {A B : Type} (m : res A) (f : A → res B) (b : B) :
  (m ≫= f) = Ok b → ∃ a, m = Ok a ∧ f a = Ok b.
Proof. destruct m as [a|e]; [eauto | discriminate]. Qed.

Lemma bind_ext {A B : Type} (m : res A) (f g : A → res B) :
  (∀ a, f a = g a) → (m ≫= f) = (m ≫= g).
Proof. intros Hfg. destruct m as [a|e]; [apply Hfg | reflexivity]. Qed.

(** Invariant rule: [P j] holds before iteration [j]; a body that breaks
    has to establish the invariant of the end of the loop. *)
Lemma for_range_inv {St : Type} (body : Z → St → res (flow * St))
    (P : Z → St → Prop) (n : nat) (i : Z) (st : St) :
  P i st →
  (∀ j s, i ≤ j < i + Z.of_nat n → P j s →
     ∃ f s', body j s = Ok (f, s') ∧
       match f with
       | Next => P (j + 1) s'
       | Break => P (i + Z.of_nat n) s'
       end) →
  ∃ s', for_range body n i st = Ok s' ∧ P (i + Z.of_nat n) s'.
Proof.
  revert i st. induction n as [|n IH]; intros i st Hst Hbody.
  - exists st. split; [reflexivity|]. by replace (i + Z.of_nat 0) with i by lia.
  - destruct (Hbody i st) as (f & s' & Hb & Hf); [lia | done |].
    cbn [for_range]. rewrite Hb. destruct f.
    + replace (i + Z.of_nat (S n)) with (i + 1 + Z.of_nat n) in * by lia.
      apply IH; [done|]. intros j s Hj Hs. apply Hbody; [lia | done].
    + eauto.
Qed.

(** The same rule for an invariant that does not mention the index. *)
Lemma for_range_ok {St : Type} (body : Z → St → res (flow * St))
    (P : St → Prop) (n : nat) (i : Z) (st : St) :
  P st →
  (∀ j s, i ≤ j < i + Z.of_nat n → P s →
     ∃ f s', body j s = Ok (f, s') ∧ P s') →
  ∃ s', for_range body n i st = Ok s' ∧ P s'.
Proof.
  intros Hst Hbody.
  apply (for_range_inv body (λ _, P)); [done|].
  intros j s Hj Hs. destruct (Hbody j s Hj Hs) as (f & s' & ? & ?).
  exists f, s'. by destruct f.
Qed.

Lemma range_loop_ok {St : Type} (body : Z → St → res (flow * St))
    (P : St → Prop) (count : Z) (st : St) :
  P st →
  (∀ j s, 0 ≤ j < count → P s → ∃ f s', body j s = Ok (f, s') ∧ P s') →
  ∃ s', range_loop count body st = Ok s' ∧ P s'.
Proof.
  intros Hst Hbody. apply for_range_ok; [done|].
  intros j s Hj. apply Hbody. lia.
Qed.

(** Two bodies that agree on the indices of the range run the same loop. *)
Lemma for_range_ext {St : Type} (body1 body2 : Z → St → res (flow * St))
    (n : nat) (i : Z) (st : St) :
  (∀ j s, i ≤ j < i + Z.of_nat n → body1 j s = body2 j s) →
  for_range body1 n i st = for_range body2 n i st.
Proof.
  revert i st. induction n as [|n IH]; intros i st Heq; [done|].
  cbn [for_range]. rewrite Heq by lia.
  destruct (body2 i st) as [[[] s']|]; try done.
  apply IH. intros j s Hj. apply Heq. lia.
Qed.

(** ** Reads inside the buffer succeed *)

Lemma le_uint_nonneg (bs : list byte) : 0 ≤ le_uint bs.
Proof.
  induction bs as [|b bs IH]; cbn [le_uint]; [done|].
  unfold byte_val. lia.
Qed.

Lemma unpack_from_ok (width : nat) (data : list byte) (offset : Z) :
  0 ≤ offset → offset + Z.of_nat width ≤ Z.of_nat (length data) →
  unpack_from width data offset = Ok (slice data offset width).
Proof.
  intros H0 Hfit. unfold unpack_from.
  repeat case_decide; try lia; done.
Qed.

Lemma unpack_u32_ok (data : list byte) (offset : Z) :
  0 ≤ offset → offset + 4 ≤ Z.of_nat (length data) →
  unpack_u32 data offset = Ok (le_uint (slice data offset 4)).
Proof.
  intros. unfold unpack_u32. rewrite unpack_from_ok by (done || lia). done.
Qed.

Lemma unpack_u32_nonneg (data : list byte) (offset v : Z) :
  unpack_u32 data offset = Ok v → 0 ≤ v.
Proof.
  unfold unpack_u32. intros (bs & _ & [= <-])%bind_Ok_inv.
  apply le_uint_nonneg.
Qed.

Lemma unpack_i32_ok (data : list byte) (offset : Z) :
  0 ≤ offset → offset + 4 ≤ Z.of_nat (length data) →
  unpack_i32 data offset = Ok (to_signed 32 (le_uint (slice data offset 4))).
Proof.
  intros. unfold unpack_i32. rewrite unpack_from_ok by (done || lia). done.
Qed.

Lemma unpack_i16_ok (data : list byte) (offset : Z) :
  0 ≤ offset → offset + 2 ≤ Z.of_nat (length data) →
  unpack_i16 data offset = Ok (to_signed 16 (le_uint (slice data offset 2))).
Proof.
  intros. unfold unpack_i16. rewrite unpack_from_ok by (done || lia). done.
Qed.

Lemma unpack_III_ok (data : list byte) (offset : Z) :
  0 ≤ offset → offset + 12 ≤ Z.of_nat (length data) →
  ∃ typ addr size, unpack_III data offset = Ok (typ, addr, size)
                   ∧ 0 ≤ typ ∧ 0 ≤ addr ∧ 0 ≤ size.
Proof.
  intros. unfold unpack_III. rewrite unpack_from_ok by (done || lia).
  do 3 eexists. split; [reflexivity|]. auto using le_uint_nonneg.
Qed.

Lemma unpack_III_nonneg (data : list byte) (offset typ addr size : Z) :
  unpack_III data offset = Ok (typ, addr, size) →
  0 ≤ typ ∧ 0 ≤ addr ∧ 0 ≤ size.
Proof.
  unfold unpack_III. intros (bs & _ & [= <- <- <-])%bind_Ok_inv.
  auto using le_uint_nonneg.
Qed.

Lemma unpack_IIII_ok (data : list byte) (offset : Z) :
  0 ≤ offset → offset + 16 ≤ Z.of_nat (length data) →
  ∃ a b c d, unpack_IIII data offset = Ok (a, b, c, d)
             ∧ 0 ≤ a ∧ 0 ≤ b ∧ 0 ≤ c ∧ 0 ≤ d.
Proof.
  intros. unfold unpack_IIII. rewrite unpack_from_ok by (done || lia).
  do 4 eexists. split; [reflexivity|]. auto 6 using le_uint_nonneg.
Qed.

Lemma unpack_IIII_nonneg (data : list byte) (offset a b c d : Z) :
  unpack_IIII data offset = Ok (a, b, c, d) →
  0 ≤ a ∧ 0 ≤ b ∧ 0 ≤ c ∧ 0 ≤ d.
Proof.
  unfold unpack_IIII. intros (bs & _ & [= <- <- <- <-])%bind_Ok_inv.
  auto 6 using le_uint_nonneg.
Qed.

(** ** The container decoder *)

Ltac case_read :=
  match goal with
  | H : (?m ≫= _) = Ok _ |- _ =>
      let a := fresh "a" in
      let Ha := fresh "Hread" in
      apply bind_Ok_inv in H as (a & Ha & H)
  end.

Lemma read_mtlopac_ok (data : list byte) (off count : Z) :
  0 ≤ off → off + count * 4 ≤ Z.of_nat (length data) →
  ∃ l, read_mtlopac data off count = Ok l.
Proof.
  intros Hoff Hfit. unfold read_mtlopac.
  destruct (range_loop_ok
    (λ s acc, val ← unpack_u32 data (off + s * 4);
              mret (Next, if decide (val > 0) then acc ++ [(s, val)] else acc))
    (λ _, True) count []) as (l & Hl & _); [done | | eauto].
  intros s acc Hs _. rewrite unpack_u32_ok by lia. cbn. eauto.
Qed.

Lemma read_grid_ok (data : list byte) (off : Z) :
  0 ≤ off → off + 16 * 4 * 4 ≤ Z.of_nat (length data) →
  ∃ l, read_grid data off = Ok l.
Proof.
  intros Hoff Hfit. unfold read_grid.
  match goal with
  | |- ∃ l, range_loop 16 ?body [] = Ok l =>
      destruct (range_loop_ok body (λ _, True) 16 []) as (l & Hl & _);
        [done | | eauto]
  end.
  intros s acc Hs _.
  match goal with
  | |- context [range_loop 4 ?body acc] =>
      destruct (range_loop_ok body (λ _, True) 4 acc) as (l & Hl & _);
        [done | | rewrite Hl; cbn; eauto]
  end.
  intros t acc' Ht _. rewrite unpack_u32_ok by lia. cbn. eauto.
Qed.

(** The size array fits: every read of [read_anim_info] lies inside
    [anim_offset, anim_offset + header_bytes). *)
Lemma read_anim_info_ok (data : list byte) (lmo_version anim_offset : Z) :
  0 ≤ anim_offset →
  anim_offset + header_bytes (anim_format lmo_version)
    ≤ Z.of_nat (length data) →
  ∃ info, read_anim_info data (anim_format lmo_version) anim_offset = Ok info.
Proof.
  intros Hoff Hfit. unfold read_anim_info.
  unfold anim_format, header_bytes in *.
  rewrite !unpack_u32_ok by (case_decide; cbn in *; lia). rewrite !bind_Ok.
  case_decide; cbn [has_mtlopac mtlopac_count n_entries] in *.
  - destruct (read_mtlopac_ok data (anim_offset + 8) 16) as [l ->];
      [lia.. |]. rewrite bind_Ok. cbn.
    destruct (read_grid_ok data (anim_offset + 8 + 16 * 4)) as [uv ->];
      [lia.. |]. rewrite bind_Ok.
    destruct (read_grid_ok data (anim_offset + 8 + 16 * 4 + 16 * 4 * 4)) as [img ->];
      [lia.. |]. rewrite bind_Ok. eauto.
  - cbn.
    destruct (read_grid_ok data (anim_offset + 8)) as [uv ->];
      [lia.. |]. rewrite bind_Ok.
    destruct (read_grid_ok data (anim_offset + 8 + 16 * 4 * 4)) as [img ->];
      [lia.. |]. rewrite bind_Ok. eauto.
Qed.

(** No iteration of the object loop raises. *)
Lemma lmo_object_ok (data : list byte) (lmo_version i : Z)
    (results : list (Z * AnimInfo)) :
  0 ≤ i →
  ∃ f results',
    lmo_object data (anim_format lmo_version) i results = Ok (f, results').
Proof.
  intros Hi. unfold lmo_object.
  case_decide; [cbn; eauto|].
  destruct (unpack_III_ok data (8 + i * 12)) as
    (typ & addr & size & -> & Htyp & Haddr & Hsize); [lia.. |].
  rewrite bind_Ok. cbn beta iota.
  case_decide; [cbn; eauto|].
  case_decide; [cbn; eauto|].
  case_decide; [cbn; eauto|].
  destruct (unpack_IIII_ok data (addr + 100)) as
    (mtl & mesh & helper & anim & -> & Hmtl & Hmesh & Hhelper & Hanim);
    [lia.. |].
  rewrite bind_Ok. cbn beta iota.
  case_decide; [cbn; eauto|].
  case_decide; [cbn; eauto|].
  destruct (read_anim_info_ok data lmo_version
              (addr + 116 + mtl + mesh + helper)) as [info ->]; [lia.. |].
  rewrite bind_Ok.
  case_decide; [cbn; eauto|].
  destruct (has_channel_data info); cbn; eauto.
Qed.

Lemma lmo_object_spec (data : list byte) (fmt : AnimFormat) (i : Z)
    (results results' : list (Z * AnimInfo)) (f : flow) :
  lmo_object data fmt i results = Ok (f, results') →
  results' = results
  ∨ (f = Next ∧ ∃ info, results' = results ++ [(i, info)]
                        ∧ decoded_at data fmt i info).
Proof.
  unfold lmo_object. intros H.
  case_decide; [left; by inversion H|].
  case_read. destruct a as [[typ addr] size]. cbn beta iota in H.
  case_decide; [left; by inversion H|].
  case_decide; [left; by inversion H|].
  case_decide; [left; by inversion H|].
  case_read. destruct a as [[[mtl mesh] helper] anim]. cbn beta iota in H.
  case_decide; [left; by inversion H|].
  case_decide; [left; by inversion H|].
  case_read. rename a into info.
  case_decide; [left; by inversion H|].
  destruct (has_channel_data info) eqn:Hch; [|left; by inversion H].
  right. inversion H; subst. split; [done|]. exists info. split; [done|].
  unfold decoded_at. do 7 eexists.
  repeat split; [eassumption | | eassumption | | eassumption | ..];
    first [done | lia].
Qed.

Lemma parse_lmo_animations_decoded (data : list byte)
    (results : list (Z * AnimInfo)) (i : Z) (info : AnimInfo) :
  parse_lmo_animations data = Ok results → (i, info) ∈ results →
  ∃ lmo_version,
    unpack_u32 data 0 = Ok lmo_version
    ∧ decoded_at data (anim_format lmo_version) i info.
Proof.
  unfold parse_lmo_animations. intros H Hin.
  case_decide; [inversion H; subst; by apply elem_of_nil in Hin|].
  case_read. rename a into lmo_version. case_read. rename a into obj_num.
  case_decide; [inversion H; subst; by apply elem_of_nil in Hin|].
  case_decide; [inversion H; subst; by apply elem_of_nil in Hin|].
  exists lmo_version. split; [done|].
  destruct (range_loop_ok (lmo_object data (anim_format lmo_version))
    (λ rs, ∀ j inf, (j, inf) ∈ rs →
           decoded_at data (anim_format lmo_version) j inf)
    obj_num []) as (rs & Hrs & Hinv).
  - intros j inf Hj. by apply elem_of_nil in Hj.
  - intros j rs Hj Hrs.
    destruct (lmo_object_ok data lmo_version j rs) as (f & rs' & Hobj); [lia|].
    exists f, rs'. split; [done|].
    apply lmo_object_spec in Hobj as [-> | (_ & inf & -> & Hdec)]; [done|].
    intros j' inf' [Hold | Hnew%list_elem_of_singleton]%elem_of_app.
    + by apply Hrs.
    + by inversion Hnew; subst.
  - rewrite Hrs in H. inversion H; subst. by apply Hinv.
Qed.

(** C10: on every byte sequence the container decoder returns a list: no
    read it performs raises, each one being covered by the bounds check in
    front of it (the 12-byte check for the directory entry, the
    [addr + 116] check for the geometry header, and the header-table check
    for the whole size array). *)
Theorem parse_lmo_animations_total (data : list byte) :
  ∃ results, parse_lmo_animations data = Ok results.
Proof.
  unfold parse_lmo_animations.
  case_decide; [cbn; eauto|].
  rewrite !unpack_u32_ok by lia. rewrite !bind_Ok.
  case_decide; [cbn; eauto|].
  case_decide; [cbn; eauto|].
  match goal with
  | |- ∃ r, range_loop ?n ?body [] = Ok r =>
      destruct (range_loop_ok body (λ _, True) n []) as (r & Hr & _);
        [done | | eauto]
  end.
  intros j rs Hj _.
  match goal with
  | |- context [anim_format ?v] =>
      destruct (lmo_object_ok data v j rs) as (f & rs' & ->); [lia|]
  end.
  eauto.
Qed.

(** C5: a container of at least 8 bytes whose version is 0, or whose object
    count exceeds 500, decodes to the empty list; the object loop is not
    entered. *)
Theorem legacy_or_implausible_is_empty (data : list byte)
    (lmo_version obj_num : Z) :
  8 ≤ Z.of_nat (length data) →
  unpack_u32 data 0 = Ok lmo_version →
  unpack_u32 data 4 = Ok obj_num →
  lmo_version = 0 ∨ obj_num > 500 →
  parse_lmo_animations data = Ok [].
Proof.
  intros Hlen Hv Hn Hskip. unfold parse_lmo_animations.
  case_decide; [lia|]. rewrite Hv, Hn, !bind_Ok.
  case_decide; [done|]. case_decide; [done|]. lia.
Qed.

Lemma legacy_or_implausible_is_empty_witness :
  parse_lmo_animations
    (u32_le 0 ++ u32_le 1 ++ drop 8 (one_object_file 636 648)) = Ok []
  ∧ parse_lmo_animations
    (u32_le 0x1000 ++ u32_le 501 ++ drop 8 (one_object_file 636 648)) = Ok [].
Proof.
  split.
  - apply (legacy_or_implausible_is_empty _ 0 1);
      [vm_compute; discriminate | reflexivity | reflexivity | by left].
  - apply (legacy_or_implausible_is_empty _ 0x1000 501);
      [vm_compute; discriminate | reflexivity | reflexivity | right; lia].
Defined.

Lemma read_anim_info_no_mtlopac (data : list byte) (fmt : AnimFormat)
    (anim_offset : Z) (info : AnimInfo) :
  has_mtlopac fmt = false →
  read_anim_info data fmt anim_offset = Ok info → mtlopac_sizes info = [].
Proof.
  unfold read_anim_info. intros -> H.
  do 2 case_read. rewrite bind_Ok in H. cbn beta iota in H.
  do 2 case_read. by inversion H.
Qed.

(** The reads of one object are functions of the buffer: two tables
    decoded at the same index are the same table. *)
Lemma decoded_at_inj (data : list byte) (fmt : AnimFormat) (i : Z)
    (info1 info2 : AnimInfo) :
  decoded_at data fmt i info1 → decoded_at data fmt i info2 → info1 = info2.
Proof.
  intros (t1 & a1 & s1 & m1 & e1 & h1 & n1 & Hd1 & _ & _ & Hs1 & _ & Hi1 & _)
         (t2 & a2 & s2 & m2 & e2 & h2 & n2 & Hd2 & _ & _ & Hs2 & _ & Hi2 & _).
  rewrite Hd1 in Hd2. inversion Hd2; subst.
  rewrite Hs1 in Hs2. inversion Hs2; subst.
  rewrite Hi1 in Hi2. by inversion Hi2.
Qed.

(** C2: a table is reported for object [i] only if the sizes of its array,
    together with the width of the array itself, add up to the animation
    size the object states; an object for which they do not is passed over:
    the results stay as they were, the loop goes on with the next index,
    and no table for [i] is reported. *)
Theorem size_equation_validated (data : list byte) :
  (∀ results i info,
     parse_lmo_animations data = Ok results → (i, info) ∈ results →
     ∃ lmo_version typ addr size mtl_size mesh_size helper_size anim_size,
       unpack_u32 data 0 = Ok lmo_version
       ∧ unpack_III data (8 + i * 12) = Ok (typ, addr, size)
       ∧ unpack_IIII data (addr + 100)
         = Ok (mtl_size, mesh_size, helper_size, anim_size)
       ∧ read_anim_info data (anim_format lmo_version)
           (addr + 116 + mtl_size + mesh_size + helper_size) = Ok info
       ∧ header_bytes (anim_format lmo_version)
         + bone_size info + mat_size info
         + sumZ (snd <$> mtlopac_sizes info)
         + sumZ (snd <$> texuv_sizes info)
         + sumZ (snd <$> teximg_sizes info) = anim_size)
  ∧ (∀ lmo_version i typ addr size mtl_size mesh_size helper_size anim_size
       info,
       0 ≤ i →
       unpack_u32 data 0 = Ok lmo_version →
       unpack_III data (8 + i * 12) = Ok (typ, addr, size) →
       unpack_IIII data (addr + 100)
         = Ok (mtl_size, mesh_size, helper_size, anim_size) →
       read_anim_info data (anim_format lmo_version)
         (addr + 116 + mtl_size + mesh_size + helper_size) = Ok info →
       header_bytes (anim_format lmo_version) + anim_total info ≠ anim_size →
       (∀ results n,
          lmo_object data (anim_format lmo_version) i results
          = Ok (Next, results)
          ∧ for_range (lmo_object data (anim_format lmo_version)) (S n) i
              results
            = for_range (lmo_object data (anim_format lmo_version)) n (i + 1)
                results)
       ∧ (∀ results info',
            parse_lmo_animations data = Ok results → (i, info') ∉ results)).
Proof.
  split.
  - intros results i info Hparse Hin.
    destruct (parse_lmo_animations_decoded _ _ _ _ Hparse Hin)
      as (v & Hv & t & a & s & m & e & h & n
            & Hd & _ & _ & Hs & _ & Hi & Heq & _).
    exists v, t, a, s, m, e, h, n. repeat split; try done.
    unfold anim_total in Heq. lia.
  - intros v i typ addr size mtl mesh helper anim info
      Hi Hv Hd Hs Hinfo Hne.
    assert (Hbody : ∀ results,
      lmo_object data (anim_format v) i results = Ok (Next, results)).
    { intros results.
      destruct (lmo_object_ok data v i results) as (f & rs' & Hobj); [done|].
      rewrite Hobj. revert Hobj. unfold lmo_object.
      case_decide as Hbrk.
      { exfalso. unfold unpack_III, unpack_from in Hd.
        repeat case_decide; try lia; discriminate. }
      rewrite Hd, bind_Ok. cbn beta iota.
      repeat (case_decide; [by intros [= <- <-]|]).
      rewrite Hs, bind_Ok. cbn beta iota.
      repeat (case_decide; [by intros [= <- <-]|]).
      rewrite Hinfo, bind_Ok. case_decide; [by intros [= <- <-]|]. lia. }
    split.
    + intros results n. split; [done|]. cbn [for_range]. by rewrite Hbody.
    + intros results info' Hparse Hin.
      destruct (parse_lmo_animations_decoded _ _ _ _ Hparse Hin)
        as (v' & Hv' & t & a & s & m & e & h & n
              & Hd' & _ & _ & Hs' & _ & Hi' & Heq & _).
      rewrite Hv in Hv'. inversion Hv'; subst v'.
      rewrite Hd in Hd'. inversion Hd'; subst.
      rewrite Hs in Hs'. inversion Hs'; subst.
      rewrite Hinfo in Hi'. inversion Hi'; subst. done.
Qed.

Lemma size_equation_validated_witness :
  (∃ lmo_version typ addr size mtl_size mesh_size helper_size anim_size,
     unpack_u32 (one_object_file 636 648) 0 = Ok lmo_version
     ∧ unpack_III (one_object_file 636 648) (8 + 0 * 12)
       = Ok (typ, addr, size)
     ∧ unpack_IIII (one_object_file 636 648) (addr + 100)
       = Ok (mtl_size, mesh_size, helper_size, anim_size)
     ∧ read_anim_info (one_object_file 636 648) (anim_format lmo_version)
         (addr + 116 + mtl_size + mesh_size + helper_size) = Ok uv_only_info
     ∧ header_bytes (anim_format lmo_version)
       + bone_size uv_only_info + mat_size uv_only_info
       + sumZ (snd <$> mtlopac_sizes uv_only_info)
       + sumZ (snd <$> texuv_sizes uv_only_info)
       + sumZ (snd <$> teximg_sizes uv_only_info) = anim_size)
  ∧ lmo_object (one_object_file 636 649) (anim_format 0x1000) 0 []
    = Ok (Next, [])
  ∧ parse_lmo_animations (one_object_file 636 649) = Ok [].
Proof.
  split.
  - apply (proj1 (size_equation_validated (one_object_file 636 648))
             [(0, uv_only_info)] 0 uv_only_info);
      [vm_compute; reflexivity | apply list_elem_of_singleton; reflexivity].
  - destruct (proj2 (size_equation_validated (one_object_file 636 649))
                0x1000 0 1 20 636 0 0 0 649 uv_only_info) as [Hbody _];
      [lia | reflexivity | reflexivity | reflexivity
       | vm_compute; reflexivity | vm_compute; discriminate |].
    split; [apply (Hbody [] 0%nat) | vm_compute; reflexivity].
Defined.

(** C4, as the decoder has it: the size field of a directory entry is not
    consulted. An entry is passed over when the 116-byte preamble of its
    object does not lie inside the buffer, [addr + 116 > len(data)]: the
    results stay as they were, the loop goes on with the next entry, and no
    table is reported for the entry. *)
Theorem preamble_overrun_is_skipped (data : list byte) (fmt : AnimFormat)
    (i typ addr size : Z) :
  0 ≤ i →
  unpack_III data (8 + i * 12) = Ok (typ, addr, size) →
  addr + 116 > Z.of_nat (length data) →
  (∀ results n,
     lmo_object data fmt i results = Ok (Next, results)
     ∧ for_range (lmo_object data fmt) (S n) i results
       = for_range (lmo_object data fmt) n (i + 1) results)
  ∧ (∀ results info,
       parse_lmo_animations data = Ok results → (i, info) ∉ results).
Proof.
  intros Hi Hd Hover.
  assert (Hbody : ∀ results, lmo_object data fmt i results = Ok (Next, results)).
  { intros results. unfold lmo_object.
    case_decide as Hbrk.
    { exfalso. unfold unpack_III, unpack_from in Hd.
      repeat case_decide; try lia; discriminate. }
    rewrite Hd, bind_Ok. cbn beta iota.
    case_decide; [done|]. case_decide; [done|]. lia. }
  split.
  - intros results n. split; [done|]. cbn [for_range]. by rewrite Hbody.
  - intros results info Hparse Hin.
    destruct (parse_lmo_animations_decoded _ _ _ _ Hparse Hin)
      as (v & _ & t & a & s & m & e & h & n & Hd' & _ & Hfit & _).
    rewrite Hd in Hd'. inversion Hd'; subst. lia.
Qed.

Lemma preamble_overrun_is_skipped_witness :
  lmo_object (take 100 (one_object_file 636 648)) (anim_format 0x1000) 0 []
  = Ok (Next, [])
  ∧ parse_lmo_animations (take 100 (one_object_file 636 648)) = Ok [].
Proof.
  destruct (preamble_overrun_is_skipped (take 100 (one_object_file 636 648))
              (anim_format 0x1000) 0 1 20 636) as [Hbody Hout];
    [lia | reflexivity | vm_compute; reflexivity |].
  split; [apply (Hbody [] 0%nat) | vm_compute; reflexivity].
Defined.

(** C4, as stated, fails: the directory entry of [one_object_file 637 648]
    declares the region [20, 657) in a buffer of 656 bytes, and its object
    is decoded all the same. *)
Lemma declared_region_overrun_not_skipped :
  ¬ (∀ (data : list byte) (i typ addr size : Z)
       (results : list (Z * AnimInfo)) (info : AnimInfo),
       unpack_III data (8 + i * 12) = Ok (typ, addr, size) →
       addr + size > Z.of_nat (length data) →
       parse_lmo_animations data = Ok results →
       (i, info) ∉ results).
Proof.
  intros H.
  apply (H (one_object_file 637 648) 0 1 20 637
           [(0, uv_only_info)] uv_only_info);
    [reflexivity | vm_compute; reflexivity | vm_compute; reflexivity
     | apply list_elem_of_singleton; reflexivity].
Qed.

(** ** Buffers that agree where the decoder reads *)

Lemma differ_only_at_spec (may_differ : Z → bool) (p : Z)
    (d1 d2 : list byte) :
  differ_only_at may_differ p d1 d2 = true →
  length d1 = length d2
  ∧ ∀ k : nat, may_differ (p + Z.of_nat k) = false → d1 !! k = d2 !! k.
Proof.
  revert p d2. induction d1 as [|b1 r1 IH]; intros p [|b2 r2] H;
    try discriminate.
  - done.
  - cbn [differ_only_at] in H.
    apply andb_true_iff in H as [Hhd Htl].
    destruct (IH _ _ Htl) as [Hlen Hrest]. split; [cbn; congruence|].
    intros [|k] Hk.
    + replace (p + Z.of_nat 0) with p in Hk by lia. rewrite Hk in Hhd.
      rewrite orb_false_r in Hhd. apply bool_decide_eq_true in Hhd.
      by subst.
    + cbn. apply Hrest. by replace (p + 1 + Z.of_nat k)
        with (p + Z.of_nat (S k)) by lia.
Qed.

Lemma slice_agree (d1 d2 : list byte) (start : Z) (width : nat) :
  0 ≤ start →
  (∀ k : nat, start ≤ Z.of_nat k < start + Z.of_nat width →
              d1 !! k = d2 !! k) →
  slice d1 start width = slice d2 start width.
Proof.
  intros Hstart Hag. unfold slice. apply list_eq. intros k.
  destruct (decide (k < width)%nat) as [Hk|Hk].
  - rewrite !lookup_take_lt, !lookup_drop by done. apply Hag. lia.
  - by rewrite !lookup_take_ge by lia.
Qed.

Lemma unpack_from_agree (d1 d2 : list byte) (width : nat) (offset : Z) :
  length d1 = length d2 → 0 ≤ offset →
  (∀ k : nat, offset ≤ Z.of_nat k < offset + Z.of_nat width →
              d1 !! k = d2 !! k) →
  unpack_from width d1 offset = unpack_from width d2 offset.
Proof.
  intros Hlen Hoff Hag. unfold unpack_from. rewrite Hlen.
  case_decide; [lia|]. case_decide; [done|].
  f_equal. by apply slice_agree.
Qed.

Section Agree.
Variables (lim : Z) (d1 d2 : list byte).
Hypothesis Hlim : 0 ≤ lim.
Hypothesis Hag : agree_from lim d1 d2.

Lemma unpack_u32_agree (offset : Z) :
  lim ≤ offset → unpack_u32 d1 offset = unpack_u32 d2 offset.
Proof using Hlim Hag.
  intros Hoff. unfold unpack_u32. destruct Hag as [Hlen Hbytes].
  rewrite (unpack_from_agree d1 d2); [done | done | lia |].
  intros k Hk. apply Hbytes. lia.
Qed.

Lemma unpack_IIII_agree (offset : Z) :
  lim ≤ offset → unpack_IIII d1 offset = unpack_IIII d2 offset.
Proof using Hlim Hag.
  intros Hoff. unfold unpack_IIII. destruct Hag as [Hlen Hbytes].
  rewrite (unpack_from_agree d1 d2); [done | done | lia |].
  intros k Hk. apply Hbytes. lia.
Qed.

Lemma read_mtlopac_agree (off count : Z) :
  lim ≤ off → read_mtlopac d1 off count = read_mtlopac d2 off count.
Proof using Hlim Hag.
  intros Hoff. unfold read_mtlopac, range_loop. apply for_range_ext.
  intros s acc Hs. rewrite unpack_u32_agree by lia. done.
Qed.

Lemma read_grid_agree (off : Z) :
  lim ≤ off → read_grid d1 off = read_grid d2 off.
Proof using Hlim Hag.
  intros Hoff. unfold read_grid, range_loop. apply for_range_ext.
  intros s acc Hs. f_equal. apply for_range_ext.
  intros t acc' Ht. rewrite unpack_u32_agree by lia. done.
Qed.

Lemma read_anim_info_agree (fmt : AnimFormat) (anim_offset : Z) :
  0 ≤ mtlopac_count fmt → lim ≤ anim_offset →
  read_anim_info d1 fmt anim_offset = read_anim_info d2 fmt anim_offset.
Proof using Hlim Hag.
  intros Hcnt Hoff. unfold read_anim_info.
  rewrite (unpack_u32_agree anim_offset) by lia.
  apply bind_ext. intros bone.
  rewrite (unpack_u32_agree (anim_offset + 4)) by lia.
  apply bind_ext. intros mat.
  assert (Hgrids : ∀ off opac, lim ≤ off →
    (uv ← read_grid d1 off;
     img ← read_grid d1 (off + 16 * 4 * 4);
     mret (mkAnimInfo bone mat opac uv img))
    = (uv ← read_grid d2 off;
       img ← read_grid d2 (off + 16 * 4 * 4);
       mret (mkAnimInfo bone mat opac uv img))).
  { intros off opac Hlo. rewrite (read_grid_agree off) by lia.
    apply bind_ext. intros uv.
    rewrite (read_grid_agree (off + 16 * 4 * 4)) by lia.
    reflexivity. }
  destruct (has_mtlopac fmt).
  - rewrite read_mtlopac_agree by lia.
    destruct (read_mtlopac d2 _ _) as [opac|]; [|by rewrite !bind_Raise].
    rewrite !bind_Ok. cbn beta iota. apply Hgrids. lia.
  - rewrite !bind_Ok. cbn beta iota. apply Hgrids. lia.
Qed.
End Agree.

Lemma anim_format_count_nonneg (lmo_version : Z) :
  0 ≤ mtlopac_count (anim_format lmo_version).
Proof. unfold anim_format. by case_decide. Qed.

Lemma size_field_low (obj_num p : Z) : p < 16 → size_field obj_num p = false.
Proof.
  intros Hp. unfold size_field. apply bool_decide_eq_false.
  intros (H8 & _ & Hm). rewrite Z.mod_small in Hm; lia.
Qed.

Lemma size_field_beyond (obj_num p : Z) :
  8 + 12 * obj_num ≤ p → size_field obj_num p = false.
Proof.
  intros Hp. unfold size_field. apply bool_decide_eq_false.
  intros (H8 & Hd & _).
  assert (obj_num ≤ (p - 8) `div` 12); [|lia].
  apply Z.div_le_lower_bound; lia.
Qed.

Lemma size_field_type_addr (obj_num i p : Z) :
  8 + i * 12 ≤ p < 8 + i * 12 + 8 → size_field obj_num p = false.
Proof.
  intros Hp. unfold size_field. apply bool_decide_eq_false.
  intros (H8 & _ & Hm).
  replace (p - 8) with ((p - 8 - i * 12) + i * 12) in Hm by lia.
  rewrite Z.mod_add in Hm by lia. rewrite Z.mod_small in Hm; lia.
Qed.

Lemma slice_of_slice (data : list byte) (start : Z) (a w n : nat) :
  0 ≤ start → (a + w ≤ n)%nat →
  take w (drop a (slice data start n)) = slice data (start + Z.of_nat a) w.
Proof.
  intros Hstart Hfit. unfold slice. apply list_eq. intros k.
  destruct (decide (k < w)%nat) as [Hk|Hk].
  - rewrite !lookup_take_lt, !lookup_drop by lia.
    rewrite lookup_take_lt, lookup_drop by lia. f_equal. lia.
  - by rewrite !lookup_take_ge by lia.
Qed.

(** The three fields of a directory entry, as [unpack_III] returns them. *)
Lemma unpack_III_fields (data : list byte) (offset typ addr size : Z) :
  0 ≤ offset →
  unpack_III data offset = Ok (typ, addr, size) →
  typ = le_uint (slice data offset 4)
  ∧ addr = le_uint (slice data (offset + 4) 4)
  ∧ size = le_uint (slice data (offset + 8) 4).
Proof.
  intros Hoff. unfold unpack_III, unpack_from.
  case_decide; [lia|]. case_decide; [discriminate|].
  rewrite bind_Ok. intros [= <- <- <-].
  rewrite <- (drop_0 (slice data offset 12)) at 1.
  rewrite !slice_of_slice by lia.
  by replace (offset + Z.of_nat 0) with offset by lia.
Qed.

Lemma lmo_object_agree (d1 d2 : list byte) (lmo_version i : Z)
    (results : list (Z * AnimInfo)) :
  differ_only_at (size_field (obj_num_of d1)) 0 d1 d2 = true →
  (∀ typ addr size,
     unpack_III d1 (8 + i * 12) = Ok (typ, addr, size) →
     typ = OBJ_TYPE_GEOMETRY → 8 + 12 * obj_num_of d1 ≤ addr) →
  0 ≤ i →
  lmo_object d1 (anim_format lmo_version) i results
  = lmo_object d2 (anim_format lmo_version) i results.
Proof.
  intros [Hlen Hbytes]%differ_only_at_spec Hafter Hi.
  assert (Hnum : 0 ≤ obj_num_of d1) by apply le_uint_nonneg.
  unfold lmo_object. rewrite <- Hlen.
  case_decide as Hbrk; [done|].
  destruct (unpack_III_ok d1 (8 + i * 12)) as
    (typ & addr & size & Hd1 & _ & Haddr & _); [lia.. |].
  destruct (unpack_III_ok d2 (8 + i * 12)) as
    (typ2 & addr2 & size2 & Hd2 & _); [lia.. |].
  apply unpack_III_fields in Hd1 as Hf1; [|lia]. destruct Hf1 as (Ht1 & Ha1 & _).
  apply unpack_III_fields in Hd2 as Hf2; [|lia]. destruct Hf2 as (Ht2 & Ha2 & _).
  assert (typ2 = typ) as ->.
  { rewrite Ht1, Ht2. f_equal. symmetry. apply slice_agree; [lia|].
    intros k Hk. apply Hbytes, (size_field_type_addr _ i). lia. }
  assert (addr2 = addr) as ->.
  { rewrite Ha1, Ha2. f_equal. symmetry. apply slice_agree; [lia|].
    intros k Hk. apply Hbytes, (size_field_type_addr _ i). lia. }
  rewrite Hd1, Hd2, !bind_Ok. cbn beta iota.
  case_decide as Htyp; [done|].
  case_decide; [done|]. case_decide; [done|].
  specialize (Hafter _ _ _ Hd1 Htyp).
  assert (Hag : agree_from (8 + 12 * obj_num_of d1) d1 d2).
  { split; [done|]. intros k Hk. apply Hbytes, size_field_beyond. lia. }
  rewrite (unpack_IIII_agree (8 + 12 * obj_num_of d1) d1 d2 ltac:(lia) Hag) by lia.
  destruct (unpack_IIII d2 (addr + 100))
    as [[[[mtl mesh] helper] anim]|] eqn:Hs; [|by rewrite !bind_Raise].
  apply unpack_IIII_nonneg in Hs as (? & ? & ? & ?).
  rewrite !bind_Ok. cbn beta iota.
  case_decide; [done|]. case_decide; [done|].
  rewrite (read_anim_info_agree (8 + 12 * obj_num_of d1) d1 d2 ltac:(lia) Hag);
    [done | apply anim_format_count_nonneg | lia].
Qed.

(** C9, as the decoder has it: take two containers that differ only in size
    fields of directory entries, and whose geometry entries place their
    objects after the directory, [8 + 12 * obj_num <= addr]. They decode to
    the same result. *)
Theorem declared_size_is_ignored (d1 d2 : list byte) :
  differ_only_at (size_field (obj_num_of d1)) 0 d1 d2 = true →
  (∀ i typ addr size,
     0 ≤ i < obj_num_of d1 →
     unpack_III d1 (8 + i * 12) = Ok (typ, addr, size) →
     typ = OBJ_TYPE_GEOMETRY → 8 + 12 * obj_num_of d1 ≤ addr) →
  parse_lmo_animations d1 = parse_lmo_animations d2.
Proof.
  intros Hdiff Hafter.
  destruct (differ_only_at_spec _ _ _ _ Hdiff) as [Hlen Hbytes].
  unfold parse_lmo_animations. rewrite <- Hlen.
  case_decide as Hshort; [done|].
  assert (Hhead : ∀ offset, 0 ≤ offset → offset + 4 ≤ 8 →
            unpack_u32 d2 offset = unpack_u32 d1 offset).
  { intros offset H0 H8. unfold unpack_u32.
    rewrite (unpack_from_agree d1 d2); [done | done | done |].
    intros k Hk. apply Hbytes, size_field_low. lia. }
  rewrite !Hhead by lia.
  rewrite !unpack_u32_ok by lia. rewrite !bind_Ok.
  case_decide; [done|]. case_decide; [done|].
  unfold range_loop. apply for_range_ext. intros j rs Hj.
  apply lmo_object_agree; [done | | lia].
  intros typ addr size. apply Hafter. unfold obj_num_of. lia.
Qed.

Lemma declared_size_is_ignored_witness :
  parse_lmo_animations (one_object_file 636 648)
  = parse_lmo_animations (one_object_file 4294967295 648).
Proof.
  apply declared_size_is_ignored; [vm_compute; reflexivity|].
  intros i typ addr size Hi.
  assert (i = 0) as -> by (change (obj_num_of (one_object_file 636 648))
                             with 1 in Hi; lia).
  intros [= <- <- <-] _. vm_compute. discriminate.
Defined.

(** C9, as stated, fails: the two buffers [overlap_file 648] and
    [overlap_file 0] differ only in the size field of directory entry 8,
    which the object of entry 0, placed at offset 0, reads back as its
    animation size. The first decodes to one table, the second to none. *)
Lemma declared_size_can_matter :
  ¬ (∀ d1 d2 : list byte,
       differ_only_at (size_field (obj_num_of d1)) 0 d1 d2 = true →
       parse_lmo_animations d1 = parse_lmo_animations d2).
Proof.
  intros H.
  specialize (H (overlap_file 648) (overlap_file 0) ltac:(vm_compute; reflexivity)).
  vm_compute in H. discriminate.
Qed.

(** ** The placement-index decoder *)

Lemma range_loop_inv {St : Type} (body : Z → St → res (flow * St))
    (P : Z → St → Prop) (count : Z) (st : St) :
  P 0 st →
  (∀ j s, 0 ≤ j < count → P j s →
     ∃ f s', body j s = Ok (f, s') ∧
       match f with
       | Next => P (j + 1) s'
       | Break => P (Z.max 0 count) s'
       end) →
  ∃ s', range_loop count body st = Ok s' ∧ P (Z.max 0 count) s'.
Proof.
  intros Hst Hbody. unfold range_loop.
  replace (Z.max 0 count) with (0 + Z.of_nat (Z.to_nat count)) in * by lia.
  apply for_range_inv; [done|].
  intros j s Hj. apply Hbody. lia.
Qed.

Lemma list_get_ok {A : Type} (l : list A) (s : Z) (x : A) :
  0 ≤ s → l !! Z.to_nat s = Some x → list_get l s = Ok x.
Proof.
  intros Hs Hx. unfold list_get.
  destruct (decide (s < 0)); [lia|].
  destruct (decide (s < 0)); [lia|]. by rewrite Hx.
Qed.

(** The first loop builds the two columns of the section index. *)
Lemma obj_index_loop (data : list byte) (section_cnt : Z) :
  44 + section_cnt * 8 ≤ Z.of_nat (length data) →
  ∃ section_offsets section_counts,
    range_loop section_cnt (obj_index_entry data 44) ([], [])
    = Ok (section_offsets, section_counts)
    ∧ ∀ s, 0 ≤ s < section_cnt →
        section_offsets !! Z.to_nat s = Some (sec_offset data s)
        ∧ section_counts !! Z.to_nat s = Some (sec_count data s).
Proof.
  intros Hfit.
  destruct (range_loop_inv (obj_index_entry data 44)
    (λ j idx, 0 ≤ j
       ∧ length idx.1 = Z.to_nat j ∧ length idx.2 = Z.to_nat j
       ∧ ∀ s, 0 ≤ s < j →
           idx.1 !! Z.to_nat s = Some (sec_offset data s)
           ∧ idx.2 !! Z.to_nat s = Some (sec_count data s))
    section_cnt ([], [])) as ([offs cnts] & Hloop & _ & _ & _ & Hidx).
  - repeat split; try done; lia.
  - intros j [offs cnts] Hj (_ & Hl1 & Hl2 & Hidx). cbn [fst snd] in *.
    unfold obj_index_entry. rewrite !unpack_i32_ok by lia. rewrite !bind_Ok.
    do 2 eexists. split; [reflexivity|]. cbn [fst snd].
    split; [lia|]. rewrite !length_app. cbn [length].
    split; [lia|]. split; [lia|].
    intros s Hs. destruct (decide (s = j)) as [->|Hne].
    + split; apply list_lookup_middle; done.
    + destruct (Hidx s) as [Ho Hc]; [lia|].
      split; (rewrite lookup_app_l; [done | lia]).
  - exists offs, cnts. split; [done|]. intros s Hs. apply Hidx. lia.
Qed.

(** The slot loop adds exactly the hits of the first [count] slots. *)
Lemma obj_slot_loop (data : list byte) (offset count : Z)
    (placements : gset (Z * Z)) :
  0 < offset →
  ∃ placements',
    range_loop count (obj_slot data offset) placements = Ok placements'
    ∧ ∀ p, p ∈ placements' ↔
           p ∈ placements ∨ ∃ j, 0 ≤ j < count ∧ slot_hit data offset j p.
Proof.
  intros Hoff.
  destruct (range_loop_inv (obj_slot data offset)
    (λ j st, ∀ p, p ∈ st ↔
       p ∈ placements ∨ ∃ j', 0 ≤ j' < j ∧ slot_hit data offset j' p)
    count placements) as (st & Hloop & Hst).
  - intros p. split; [by left|]. intros [?|(j & ? & _)]; [done | lia].
  - intros j st Hj Hst. unfold obj_slot.
    case_decide as Hbrk.
    + (* break: the slots from [j] on do not fit either *)
      exists Break, st. split; [done|]. intros p. rewrite Hst.
      split; intros [?|(j' & Hj' & Hhit)]; [by left | | by left |].
      * right. exists j'. split; [lia | done].
      * right. exists j'. split; [|done].
        destruct Hhit as [Hfit _]. nia.
    + rewrite unpack_i16_ok by lia. rewrite bind_Ok.
      destruct (decode_placement _) as [q|] eqn:Hq.
      * exists Next, ({[ q ]} ∪ st). split; [done|]. intros p.
        rewrite elem_of_union, elem_of_singleton, Hst.
        split.
        -- intros [-> | [?|(j' & Hj' & Hhit)]]; [|by left|].
           ++ right. exists j. split; [lia|]. split; [lia | done].
           ++ right. exists j'. split; [lia | done].
        -- intros [?|(j' & Hj' & Hhit)]; [by right; left|].
           destruct (decide (j' = j)) as [->|Hne].
           ++ left. destruct Hhit as [_ Hhit]. congruence.
           ++ right; right. exists j'. split; [lia | done].
      * exists Next, st. split; [done|]. intros p. rewrite Hst.
        split; intros [?|(j' & Hj' & Hhit)]; [by left | | by left |].
        -- right. exists j'. split; [lia | done].
        -- destruct (decide (j' = j)) as [->|Hne].
           ++ destruct Hhit as [_ Hhit]. congruence.
           ++ right. exists j'. split; [lia | done].
  - exists st. split; [done|]. intros p. rewrite Hst.
    split; intros [?|(j' & Hj' & Hhit)]; [by left | | by left |];
      right; exists j'; (split; [lia | done]).
Qed.

(** The section loop adds exactly the hits of the sections of the index. *)
Lemma obj_section_loop (data : list byte) (section_cnt : Z)
    (section_offsets section_counts : list Z) :
  (∀ s, 0 ≤ s < section_cnt →
     section_offsets !! Z.to_nat s = Some (sec_offset data s)
     ∧ section_counts !! Z.to_nat s = Some (sec_count data s)) →
  ∃ placements,
    range_loop section_cnt
      (obj_section data section_offsets section_counts) ∅ = Ok placements
    ∧ ∀ p, p ∈ placements ↔
           ∃ s j, 0 ≤ s < section_cnt
                  ∧ sec_count data s > 0 ∧ sec_offset data s > 0
                  ∧ 0 ≤ j < sec_count data s
                  ∧ slot_hit data (sec_offset data s) j p.
Proof.
  intros Hidx.
  destruct (range_loop_inv
    (obj_section data section_offsets section_counts)
    (λ s st, ∀ p, p ∈ st ↔
       ∃ s' j, 0 ≤ s' < s
               ∧ sec_count data s' > 0 ∧ sec_offset data s' > 0
               ∧ 0 ≤ j < sec_count data s'
               ∧ slot_hit data (sec_offset data s') j p)
    section_cnt ∅) as (st & Hloop & Hst).
  - intros p. split; [by intros ?%not_elem_of_empty|].
    intros (s & j & ? & _). lia.
  - intros s st Hs Hst. unfold obj_section.
    destruct (Hidx s Hs) as [Ho Hc].
    rewrite (list_get_ok section_counts s (sec_count data s)), bind_Ok
      by (done || lia).
    rewrite (list_get_ok section_offsets s (sec_offset data s)), bind_Ok
      by (done || lia).
    case_decide as Hskip.
    + exists Next, st. split; [done|]. intros p. rewrite Hst.
      split; intros (s' & j & Hs' & Hrest).
      * exists s', j. split; [lia | done].
      * exists s', j. split; [|done].
        pose proof Hrest as (Hcnt & Hoff & _).
        destruct (decide (s' = s)) as [->|]; lia.
    + destruct (obj_slot_loop data (sec_offset data s) (sec_count data s) st)
        as (st' & -> & Hst'); [lia|].
      rewrite bind_Ok. exists Next, st'. split; [done|]. intros p.
      rewrite Hst', Hst. split.
      * intros [(s' & j & Hs' & Hrest) | (j & Hj & Hhit)].
        -- exists s', j. split; [lia | done].
        -- exists s, j. split; [lia|]. split; [lia|]. split; [lia|]. done.
      * intros (s' & j & Hs' & Hcnt & Hoff & Hj & Hhit).
        destruct (decide (s' = s)) as [->|].
        -- right. by exists j.
        -- left. exists s', j. split; [lia|]. done.
  - exists st. split; [done|]. intros p. rewrite Hst.
    split; intros (s & j & Hs & Hrest); exists s, j; (split; [lia | done]).
Qed.

(** What [parse_obj_file] builds: the set of the pairs that some slot of
    some section of an accepted file places; no read raises. *)
Lemma obj_placements_spec (data : list byte) :
  ∃ placements,
    obj_placements data = Ok placements
    ∧ ∀ p, p ∈ placements ↔
           obj_header_ok data ∧ ∃ s j, placed_at data s j p.
Proof.
  unfold obj_placements, obj_header_ok.
  case_decide as Hshort.
  { exists ∅. split; [done|]. intros p.
    split; [by intros ?%not_elem_of_empty | lia]. }
  rewrite (unpack_i32_ok data 16), bind_Ok by lia.
  case_decide as Hver.
  { exists ∅. split; [done|]. intros p.
    split; [by intros ?%not_elem_of_empty | tauto]. }
  rewrite (unpack_i32_ok data 24), bind_Ok by lia.
  rewrite (unpack_i32_ok data 28), bind_Ok by lia.
  fold (section_cnt_of data).
  case_decide as Hfit.
  { exists ∅. split; [done|]. intros p.
    split; [by intros ?%not_elem_of_empty | lia]. }
  destruct (obj_index_loop data (section_cnt_of data))
    as (offs & cnts & -> & Hidx); [lia|].
  rewrite bind_Ok. cbn beta iota.
  destruct (obj_section_loop data (section_cnt_of data) offs cnts Hidx)
    as (st & -> & Hst).
  exists st. split; [done|]. intros p. rewrite Hst. unfold placed_at.
  split.
  - intros (s & j & H). split; [lia|]. by exists s, j.
  - intros [_ (s & j & H)]. by exists s, j.
Qed.

(** C7: the placements of a map file are returned as a list without
    repetition: a pair is in it exactly when some slot of some section
    places it, and then it occurs once, however many slots place it. *)
Theorem placements_are_a_set (data : list byte) :
  ∃ placements,
    parse_obj_file data = Ok placements
    ∧ NoDup placements
    ∧ ∀ p, p ∈ placements ↔
           obj_header_ok data ∧ ∃ s j, placed_at data s j p.
Proof.
  destruct (obj_placements_spec data) as (st & Hst & Hin).
  exists (elements st). unfold parse_obj_file. rewrite Hst, bind_Ok.
  split; [done|]. split; [apply NoDup_elements|].
  intros p. by rewrite elem_of_elements.
Qed.

(** The pair (0, 42) is placed by a slot of section 0 and by a slot of
    section 1 of [two_section_file], and is returned once. *)
Example two_section_file_once :
  parse_obj_file two_section_file = Ok [(0, 42)]
  ∧ placed_at two_section_file 0 0 (0, 42)
  ∧ placed_at two_section_file 1 0 (0, 42).
Proof.
  split; [vm_compute; reflexivity|].
  split; vm_compute; repeat split; congruence.
Qed.

(** ** The packed placement field *)

Lemma to_signed_16_low (v : Z) :
  0 ≤ v < 65536 → Z.land (to_signed 16 v) 0xFFFF = v.
Proof.
  intros Hv. change 0xFFFF with (Z.ones 16).
  rewrite Z.land_ones by lia. unfold to_signed.
  change (2 ^ (16 - 1)) with 32768. change (2 ^ 16) with 65536.
  case_decide.
  - apply Z.mod_small. lia.
  - replace (v - 65536) with (v + (-1) * 65536) by lia.
    rewrite Z.mod_add by lia. apply Z.mod_small. lia.
Qed.

(** C6: for a 16-bit packed value [v], read as a signed 16-bit integer the
    way the decoder reads it, the kind is [v >> 14] and the object id is
    [v & 0x3FFF], an id between 0 and 16383; the pair is kept exactly when
    the id is positive and the kind is 0 or 1, and never when the id is 0. *)
Theorem packed_field_decode (v : Z) :
  0 ≤ v < 65536 →
  obj_type_of (to_signed 16 v) = Z.shiftr v 14
  ∧ obj_id_of (to_signed 16 v) = Z.land v 0x3FFF
  ∧ 0 ≤ obj_id_of (to_signed 16 v) ≤ 16383
  ∧ (∀ p, decode_placement (to_signed 16 v) = Some p ↔
          p = (Z.shiftr v 14, Z.land v 0x3FFF)
          ∧ Z.land v 0x3FFF > 0
          ∧ (Z.shiftr v 14 = 0 ∨ Z.shiftr v 14 = 1))
  ∧ (Z.land v 0x3FFF = 0 → decode_placement (to_signed 16 v) = None).
Proof.
  intros Hv.
  assert (Hty : obj_type_of (to_signed 16 v) = Z.shiftr v 14).
  { unfold obj_type_of. by rewrite to_signed_16_low. }
  assert (Hid : obj_id_of (to_signed 16 v) = Z.land v 0x3FFF).
  { unfold obj_id_of. by rewrite to_signed_16_low. }
  assert (Hidr : 0 ≤ Z.land v 0x3FFF ≤ 16383).
  { change (Z.land v 0x3FFF) with (Z.land v (Z.ones 14)).
    rewrite Z.land_ones by lia.
    change (2 ^ 14) with 16384.
    pose proof (Z.mod_pos_bound v 16384 ltac:(lia)). lia. }
  assert (Htyr : 0 ≤ Z.shiftr v 14).
  { rewrite Z.shiftr_div_pow2 by lia. apply Z.div_pos; lia. }
  split; [done|]. split; [done|]. split; [by rewrite Hid|].
  unfold decode_placement. rewrite Hty, Hid. split.
  - intros p. case_decide as Hkeep.
    + split; [intros [= <-]|by intros [-> _]].
      split; [done|]. split; [lia|]. lia.
    + split; [done|]. intros (_ & Hpos & Hkind). lia.
  - intros Hzero. case_decide; [lia | done].
Qed.

Lemma packed_field_decode_witness :
  obj_type_of (to_signed 16 0x402A) = Z.shiftr 0x402A 14
  ∧ decode_placement (to_signed 16 0x402A) = Some (1, 42)
  ∧ decode_placement (to_signed 16 0xC000) = None.
Proof.
  destruct (packed_field_decode 0x402A) as (Hty & _ & _ & Hkeep & _); [lia|].
  destruct (packed_field_decode 0xC000) as (_ & _ & _ & _ & Hzero); [lia|].
  split; [exact Hty|]. split.
  - apply Hkeep. vm_compute. repeat split; auto; discriminate.
  - apply Hzero. reflexivity.
Defined.

(** ** The catalog decoder *)

Lemma length_slice (data : list byte) (start : Z) (width : nat) :
  0 ≤ start → start + Z.of_nat width ≤ Z.of_nat (length data) →
  length (slice data start width) = width.
Proof.
  intros Hstart Hfit. unfold slice. rewrite length_take, length_drop. lia.
Qed.

Section CatalogProps.
Variable decode_utf8_replace : list byte → str.
Variables strip lower : str → str.

Local Abbreviation entry := (sceneobj_entry decode_utf8_replace strip lower).
Local Abbreviation included :=
  (included_record decode_utf8_replace strip lower).
Local Abbreviation last_of :=
  (last_included decode_utf8_replace strip lower).

(** With records of 104 bytes or more, a record inside the buffer is
    read without an exception, and an included one is stored under its
    id. *)
Lemma sceneobj_entry_wide (data : list byte) (entry_size i : Z)
    (result : gmap Z str) :
  104 ≤ entry_size → 0 ≤ i →
  (i + 1) * entry_size ≤ Z.of_nat (length data) →
  entry data entry_size i result
  = Ok (Next, match included data entry_size i with
              | Some (obj_id, name) => <[obj_id := name]> result
              | None => result
              end).
Proof using Type.
  intros Hwide Hi Hfit. unfold sceneobj_entry, included_record.
  case_decide; [lia|].
  assert (Hlen : length (slice data (i * entry_size) (Z.to_nat entry_size))
                 = Z.to_nat entry_size) by (apply length_slice; lia).
  rewrite unpack_i32_ok by lia. rewrite bind_Ok.
  case_decide; [done|].
  rewrite unpack_u32_ok by lia. rewrite bind_Ok.
  by case_decide.
Qed.

Lemma catalog_loop (data : list byte) (entry_size n : Z) :
  104 ≤ entry_size → n * entry_size ≤ Z.of_nat (length data) →
  ∃ result,
    range_loop n (entry data entry_size) ∅ = Ok result
    ∧ ∀ obj_id name,
        result !! obj_id = Some name
        ↔ last_of data entry_size (Z.max 0 n) obj_id name.
Proof using Type.
  intros Hwide Hfit.
  apply (range_loop_inv (entry data entry_size)
    (λ i result, ∀ obj_id name,
       result !! obj_id = Some name
       ↔ last_of data entry_size i obj_id name)).
  - intros obj_id name. rewrite lookup_empty.
    split; [done|]. intros (k & ? & _). lia.
  - intros i result Hi Hinv.
    rewrite sceneobj_entry_wide by (lia || nia).
    do 2 eexists. split; [reflexivity|].
    intros obj_id name. unfold last_included.
    destruct (included data entry_size i) as [[id0 name0]|] eqn:Hrec.
    + destruct (decide (id0 = obj_id)) as [->|Hne].
      * rewrite lookup_insert_eq. split.
        -- intros [= <-]. exists i. split; [lia|]. split; [done|].
           intros k' name' Hk'. lia.
        -- intros (k & Hk & Hk_rec & Hlast).
           destruct (decide (k = i)) as [->|].
           ++ congruence.
           ++ exfalso. apply (Hlast i name0); [lia | done].
      * rewrite lookup_insert_ne by done. rewrite Hinv. split.
        -- intros (k & Hk & Hk_rec & Hlast).
           exists k. split; [lia|]. split; [done|].
           intros k' name' Hk'.
           destruct (decide (k' = i)) as [->|]; [congruence|].
           apply Hlast. lia.
        -- intros (k & Hk & Hk_rec & Hlast).
           destruct (decide (k = i)) as [->|]; [congruence|].
           exists k. split; [lia|]. split; [done|].
           intros k' name' Hk'. apply Hlast. lia.
    + rewrite Hinv. split.
      * intros (k & Hk & Hk_rec & Hlast).
        exists k. split; [lia|]. split; [done|].
        intros k' name' Hk'.
        destruct (decide (k' = i)) as [->|]; [congruence|].
        apply Hlast. lia.
      * intros (k & Hk & Hk_rec & Hlast).
        destruct (decide (k = i)) as [->|]; [congruence|].
        exists k. split; [lia|]. split; [done|].
        intros k' name' Hk'. apply Hlast. lia.
Qed.

(** The dictionary the decoder returns on a catalog whose records are
    104 bytes wide or more: no read raises, and an id is mapped to the
    name of the last included record that carries it. *)
Lemma parse_sceneobjinfo_bin_wide (data : list byte) :
  4 ≤ Z.of_nat (length data) →
  104 ≤ le_uint (slice data 0 4) →
  ∃ result,
    parse_sceneobjinfo_bin decode_utf8_replace strip lower data = Ok result
    ∧ ∀ obj_id name,
        result !! obj_id = Some name
        ↔ last_of (drop 4 data) (le_uint (slice data 0 4))
            (Z.of_nat (length (drop 4 data)) `div` le_uint (slice data 0 4))
            obj_id name.
Proof using Type.
  intros Hlen Hwide. unfold parse_sceneobjinfo_bin.
  case_decide; [lia|].
  rewrite unpack_u32_ok by lia. rewrite bind_Ok.
  case_decide; [lia|].
  set (entry_size := le_uint (slice data 0 4)) in *.
  set (body := drop 4 data).
  assert (Hcnt : 0 ≤ Z.of_nat (length body) `div` entry_size)
    by (apply Z.div_pos; lia).
  destruct (catalog_loop body entry_size
              (Z.of_nat (length body) `div` entry_size))
    as (result & Hloop & Hres); [done | |].
  { rewrite Z.mul_comm. apply Z.mul_div_le. lia. }
  exists result. split; [done|].
  intros obj_id name. rewrite Hres.
  by replace (Z.max 0 (Z.of_nat (length body) `div` entry_size))
    with (Z.of_nat (length body) `div` entry_size) by lia.
Qed.

(** C8: when included records (nonzero exists flag, non-empty name) of a
    catalog carry the same object id, the decoded catalog maps the id to
    the name of the one that comes last in the record array. Records
    that hold an id are 104 bytes wide at least. *)
Theorem catalog_last_wins (data : list byte) (j obj_id : Z) (name : str) :
  let entry_size := le_uint (slice data 0 4) in
  let entry_count := Z.of_nat (length (drop 4 data)) `div` entry_size in
  4 ≤ Z.of_nat (length data) →
  104 ≤ entry_size →
  0 ≤ j < entry_count →
  included (drop 4 data) entry_size j = Some (obj_id, name) →
  (∀ k name', j < k < entry_count →
     included (drop 4 data) entry_size k ≠ Some (obj_id, name')) →
  ∃ result,
    parse_sceneobjinfo_bin decode_utf8_replace strip lower data = Ok result
    ∧ result !! obj_id = Some name.
Proof using Type.
  intros entry_size entry_count Hlen Hwide Hj Hrec Hlast.
  destruct (parse_sceneobjinfo_bin_wide data Hlen Hwide)
    as (result & Hparse & Hres).
  exists result. split; [done|]. apply Hres. by exists j.
Qed.

(** C1: the catalog decoder raises on [short_record_catalog], a buffer
    that declares records of 4 bytes: the id of its one record is read at
    offset 100 of a 4-byte chunk. *)
Theorem catalog_short_record_raises :
  parse_sceneobjinfo_bin decode_utf8_replace strip lower
    short_record_catalog = Raise StructError.
Proof using Type. vm_compute. reflexivity. Qed.
End CatalogProps.

Lemma catalog_last_wins_witness :
  ∃ result,
    parse_sceneobjinfo_bin decode_bytewise keep_text keep_text
      two_record_catalog = Ok result
    ∧ result !! 7 = Some [100%N].
Proof.
  apply (catalog_last_wins decode_bytewise keep_text keep_text
           two_record_catalog 1 7 [100%N]).
  - vm_compute. discriminate.
  - vm_compute. discriminate.
  - vm_compute. split; [discriminate | reflexivity].
  - vm_compute. reflexivity.
  - intros k name' Hk. exfalso.
    assert (Hcount : Z.of_nat (length (drop 4 two_record_catalog))
                     `div` le_uint (slice two_record_catalog 0 4) = 2)
      by (vm_compute; reflexivity).
    rewrite Hcount in Hk. lia.
Defined.

(** * Further properties of the decoders *)

(** ** More rules for loops *)

(** Partial correctness: what holds of the state of a loop that returned. *)
Lemma for_range_post {St : Type} (body : Z → St → res (flow * St))
    (P : Z → St → Prop) (n : nat) (i : Z) (st st' : St) :
  for_range body n i st = Ok st' →
  P i st →
  (∀ j s f s', i ≤ j < i + Z.of_nat n → P j s → body j s = Ok (f, s') →
     match f with
     | Next => P (j + 1) s'
     | Break => P (i + Z.of_nat n) s'
     end) →
  P (i + Z.of_nat n) st'.
Proof.
  revert i st. induction n as [|n IH]; intros i st Hrun Hst Hbody.
  - cbn in Hrun. inversion Hrun; subst.
    by replace (i + Z.of_nat 0) with i by lia.
  - cbn [for_range] in Hrun.
    destruct (body i st) as [[f s']|e] eqn:Hb; [|discriminate].
    pose proof (Hbody i st f s' ltac:(lia) Hst Hb) as Hstep.
    destruct f.
    + replace (i + Z.of_nat (S n)) with (i + 1 + Z.of_nat n) in * by lia.
      apply (IH (i + 1) s'); [done | done |].
      intros j s f s'' Hj. apply Hbody. lia.
    + by inversion Hrun; subst.
Qed.

Lemma range_loop_post {St : Type} (body : Z → St → res (flow * St))
    (P : Z → St → Prop) (count : Z) (st st' : St) :
  range_loop count body st = Ok st' →
  P 0 st →
  (∀ j s f s', 0 ≤ j < count → P j s → body j s = Ok (f, s') →
     match f with
     | Next => P (j + 1) s'
     | Break => P (Z.max 0 count) s'
     end) →
  P (Z.max 0 count) st'.
Proof.
  unfold range_loop. intros Hrun Hst Hbody.
  replace (Z.max 0 count) with (0 + Z.of_nat (Z.to_nat count)) in * by lia.
  apply (for_range_post body P _ _ st); [done | done |].
  intros j s f s' Hj. apply Hbody. lia.
Qed.

(** A loop whose body appends [g j] at iteration [j] appends them all, in
    the order of the range. *)
Lemma for_range_collect {A : Type} (body : Z → list A → res (flow * list A))
    (g : Z → list A) (n : nat) (i : Z) (acc : list A) :
  (∀ j acc', i ≤ j < i + Z.of_nat n → body j acc' = Ok (Next, acc' ++ g j)) →
  for_range body n i acc = Ok (acc ++ (seqZ i (Z.of_nat n) ≫= g)).
Proof.
  revert i acc. induction n as [|n IH]; intros i acc Hbody.
  - cbn. by rewrite app_nil_r.
  - cbn [for_range]. rewrite Hbody by lia.
    rewrite IH by (intros; apply Hbody; lia).
    rewrite (seqZ_cons i) by lia. cbn [mbind list_bind].
    rewrite <- app_assoc.
    replace (Z.succ i) with (i + 1) by lia.
    by replace (Z.pred (Z.of_nat (S n))) with (Z.of_nat n) by lia.
Qed.

(** A loop that returned without ever leaving early ran each of its
    iterations. *)
Lemma for_range_all_ran {St : Type} (body : Z → St → res (flow * St))
    (n : nat) (i : Z) (st st' : St) :
  (∀ j s s', body j s ≠ Ok (Break, s')) →
  for_range body n i st = Ok st' →
  ∀ j, i ≤ j < i + Z.of_nat n → ∃ s s', body j s = Ok (Next, s').
Proof.
  intros Hnobreak. revert i st. induction n as [|n IH]; intros i st Hrun j Hj;
    [lia|].
  cbn [for_range] in Hrun.
  destruct (body i st) as [[[] s']|e] eqn:Hb; [| by apply Hnobreak in Hb | done].
  destruct (decide (j = i)) as [->|]; [eauto|].
  apply (IH (i + 1) s' Hrun). lia.
Qed.

(** ** The size array is read cell by cell *)

Lemma le_uint_bound (bs : list byte) :
  le_uint bs < 256 ^ Z.of_nat (length bs).
Proof.
  induction bs as [|b bs IH]; cbn [le_uint length]; [done|].
  rewrite Nat2Z.inj_succ, Z.pow_succ_r by lia.
  assert (byte_val b < 256).
  { unfold byte_val. pose proof (Byte.to_N_bounded b). lia. }
  lia.
Qed.

Lemma u32_at_range (data : list byte) (offset : Z) :
  0 ≤ u32_at data offset < 2 ^ 32.
Proof.
  unfold u32_at. split; [apply le_uint_nonneg|].
  pose proof (le_uint_bound (slice data offset 4)) as Hb.
  assert (length (slice data offset 4) ≤ 4)%nat
    by (unfold slice; rewrite length_take; lia).
  eapply Z.lt_le_trans; [exact Hb|].
  change (2 ^ 32) with (256 ^ 4). apply Z.pow_le_mono_r; lia.
Qed.

Lemma read_mtlopac_entries (data : list byte) (off count : Z) :
  0 ≤ off → off + count * 4 ≤ Z.of_nat (length data) →
  read_mtlopac data off count = Ok (mtlopac_entries data off count).
Proof.
  intros Hoff Hfit. unfold read_mtlopac, range_loop, mtlopac_entries.
  destruct (decide (count ≤ 0)) as [Hneg|Hpos].
  { replace (Z.to_nat count) with 0%nat by lia. cbn [for_range].
    by rewrite seqZ_nil by lia. }
  rewrite (for_range_collect _
    (λ s, if decide (u32_at data (off + s * 4) > 0)
          then [(s, u32_at data (off + s * 4))] else [])).
  - rewrite Z2Nat.id by lia. done.
  - intros s acc Hs. rewrite unpack_u32_ok by lia. rewrite bind_Ok.
    unfold u32_at. case_decide; [done|]. by rewrite app_nil_r.
Qed.

Lemma read_grid_entries (data : list byte) (off : Z) :
  0 ≤ off → off + 16 * 4 * 4 ≤ Z.of_nat (length data) →
  read_grid data off = Ok (grid_entries data off).
Proof.
  intros Hoff Hfit. unfold read_grid, range_loop, grid_entries.
  rewrite (for_range_collect _
    (λ s, t ← seqZ 0 4;
          if decide (u32_at data (off + (s * 4 + t) * 4) > 0)
          then [(s, t, u32_at data (off + (s * 4 + t) * 4))] else [])).
  - done.
  - intros s acc Hs.
    rewrite (for_range_collect _
      (λ t, if decide (u32_at data (off + (s * 4 + t) * 4) > 0)
            then [(s, t, u32_at data (off + (s * 4 + t) * 4))] else [])).
    + done.
    + intros t acc' Ht. rewrite unpack_u32_ok by lia. rewrite bind_Ok.
      unfold u32_at. case_decide; [done|]. by rewrite app_nil_r.
Qed.

Lemma read_anim_info_cells_eq (data : list byte) (lmo_version anim_offset : Z) :
  0 ≤ anim_offset →
  anim_offset + header_bytes (anim_format lmo_version)
    ≤ Z.of_nat (length data) →
  read_anim_info data (anim_format lmo_version) anim_offset
  = Ok (if decide (lmo_version >= 0x1005) then
          mkAnimInfo (u32_at data anim_offset) (u32_at data (anim_offset + 4))
            (mtlopac_entries data (anim_offset + 8) 16)
            (grid_entries data (anim_offset + 72))
            (grid_entries data (anim_offset + 328))
        else
          mkAnimInfo (u32_at data anim_offset) (u32_at data (anim_offset + 4))
            []
            (grid_entries data (anim_offset + 8))
            (grid_entries data (anim_offset + 264))).
Proof.
  intros Hoff Hfit. unfold read_anim_info, anim_format, header_bytes in *.
  case_decide; cbn [has_mtlopac mtlopac_count n_entries] in *.
  - rewrite !unpack_u32_ok, !bind_Ok by lia.
    rewrite read_mtlopac_entries by lia.
    cbn [mbind res_bind mret res_ret].
    rewrite read_grid_entries by lia. cbn [mbind res_bind mret res_ret].
    rewrite read_grid_entries by lia. cbn [mbind res_bind mret res_ret].
    unfold u32_at.
    replace (anim_offset + 8 + 16 * 4) with (anim_offset + 72) by lia.
    by replace (anim_offset + 72 + 16 * 4 * 4) with (anim_offset + 328) by lia.
  - rewrite !unpack_u32_ok, !bind_Ok by lia.
    cbn [mbind res_bind mret res_ret].
    rewrite read_grid_entries by lia. cbn [mbind res_bind mret res_ret].
    rewrite read_grid_entries by lia. cbn [mbind res_bind mret res_ret].
    unfold u32_at.
    by replace (anim_offset + 8 + 16 * 4 * 4) with (anim_offset + 264) by lia.
Qed.

(** X1: the table read for an object is the size array cell by cell: the
    two leading sizes, then, from version 0x1005 on, the nonzero cells of
    the 16 opacity slots, then the nonzero cells of the two 16 x 4 grids,
    each list in the order of the array. *)
Theorem read_anim_info_cells (data : list byte) (lmo_version anim_offset : Z) :
  0 ≤ anim_offset →
  anim_offset + header_bytes (anim_format lmo_version)
    ≤ Z.of_nat (length data) →
  read_anim_info data (anim_format lmo_version) anim_offset
  = Ok (if decide (lmo_version >= 0x1005) then
          mkAnimInfo (u32_at data anim_offset) (u32_at data (anim_offset + 4))
            (mtlopac_entries data (anim_offset + 8) 16)
            (grid_entries data (anim_offset + 72))
            (grid_entries data (anim_offset + 328))
        else
          mkAnimInfo (u32_at data anim_offset) (u32_at data (anim_offset + 4))
            []
            (grid_entries data (anim_offset + 8))
            (grid_entries data (anim_offset + 264))).
Proof.
  intros Hoff Hfit. rewrite read_anim_info_cells_eq by done. reflexivity.
Qed.

Lemma read_anim_info_cells_witness :
  read_anim_info (one_object_file 636 648) (anim_format 0x1000) 136
  = Ok (mkAnimInfo (u32_at (one_object_file 636 648) 136)
          (u32_at (one_object_file 636 648) (136 + 4)) []
          (grid_entries (one_object_file 636 648) (136 + 8))
          (grid_entries (one_object_file 636 648) (136 + 264))).
Proof.
  apply (read_anim_info_cells (one_object_file 636 648) 0x1000 136);
    [lia | vm_compute; discriminate].
Defined.

(** ** A read that succeeds lies inside the buffer *)

Lemma unpack_from_Ok_inv (width : nat) (data bs : list byte) (offset : Z) :
  0 ≤ offset → unpack_from width data offset = Ok bs →
  offset + Z.of_nat width ≤ Z.of_nat (length data).
Proof.
  intros Hoff. unfold unpack_from.
  case_decide; [lia|]. case_decide; [discriminate|]. lia.
Qed.

Lemma unpack_u32_Ok_inv (data : list byte) (offset v : Z) :
  0 ≤ offset → unpack_u32 data offset = Ok v →
  offset + 4 ≤ Z.of_nat (length data).
Proof.
  intros Hoff (bs & Hbs & _)%bind_Ok_inv.
  apply unpack_from_Ok_inv in Hbs; lia.
Qed.

Lemma bind_next_no_break {A St : Type} (m : res A) (k : A → St) (s' : St) :
  (x ← m; mret (Next, k x)) ≠ Ok (Break, s').
Proof. destruct m; discriminate. Qed.

Lemma read_grid_Ok_inv (data : list byte) (off : Z) (l : list (Z * Z * Z)) :
  0 ≤ off → read_grid data off = Ok l →
  off + 16 * 4 * 4 ≤ Z.of_nat (length data).
Proof.
  intros Hoff Hrun. unfold read_grid, range_loop in Hrun.
  apply for_range_all_ran with (j := 15) in Hrun
    as (acc & acc' & Hlast); [| intros; apply bind_next_no_break | lia].
  apply bind_Ok_inv in Hlast as (acc1 & Hinner & _).
  apply for_range_all_ran with (j := 3) in Hinner
    as (acc2 & acc3 & Hcell); [| intros; apply bind_next_no_break | lia].
  apply bind_Ok_inv in Hcell as (val & Hval & _).
  apply unpack_u32_Ok_inv in Hval; lia.
Qed.

Lemma read_anim_info_Ok_fits (data : list byte)
    (lmo_version anim_offset : Z) (info : AnimInfo) :
  0 ≤ anim_offset →
  read_anim_info data (anim_format lmo_version) anim_offset = Ok info →
  anim_offset + header_bytes (anim_format lmo_version)
    ≤ Z.of_nat (length data).
Proof.
  intros Hoff Hrun. unfold read_anim_info in Hrun.
  do 3 case_read. destruct a1 as [opac off]. do 2 case_read.
  apply read_grid_Ok_inv in Hread3.
  - revert Hread1 Hread3. unfold anim_format, header_bytes.
    case_decide; cbn [has_mtlopac mtlopac_count n_entries].
    + intros (l & _ & [= _ <-])%bind_Ok_inv. lia.
    + intros [= _ <-]. lia.
  - revert Hread1. unfold anim_format.
    case_decide; cbn [has_mtlopac mtlopac_count n_entries].
    + intros (l & _ & [= _ <-])%bind_Ok_inv. lia.
    + intros [= _ <-]. lia.
Qed.

(** X2: the size array of an object is read without an exception exactly
    when all its [n_entries] cells lie inside the buffer: the check in
    front of the reads lets no short array through and turns none away
    that could be read. *)
Theorem read_anim_info_iff_fits (data : list byte)
    (lmo_version anim_offset : Z) :
  0 ≤ anim_offset →
  (∃ info,
     read_anim_info data (anim_format lmo_version) anim_offset = Ok info)
  ↔ anim_offset + header_bytes (anim_format lmo_version)
      ≤ Z.of_nat (length data).
Proof.
  intros Hoff. split.
  - intros [info Hrun]. by eapply read_anim_info_Ok_fits.
  - by apply read_anim_info_ok.
Qed.

Lemma read_anim_info_iff_fits_witness :
  (∃ info, read_anim_info (one_object_file 636 648) (anim_format 0x1000) 136
           = Ok info)
  ∧ ¬ (∃ info, read_anim_info (one_object_file 636 648) (anim_format 0x1000)
                 137 = Ok info).
Proof.
  split.
  - apply (read_anim_info_iff_fits _ 0x1000 136); [lia|].
    vm_compute. discriminate.
  - intros H. apply (read_anim_info_iff_fits _ 0x1000 137) in H; [|lia].
    revert H. vm_compute. intros H. by apply H.
Defined.

(** ** The header shape decides how an object is decoded *)

Lemma header_bytes_spec (lmo_version : Z) :
  header_bytes (anim_format lmo_version) = spec_entries_count lmo_version * 4.
Proof.
  unfold header_bytes, anim_format, spec_entries_count. by case_decide.
Qed.

Lemma unpack_III_Ok_fits (data : list byte) (offset typ addr size : Z) :
  0 ≤ offset → unpack_III data offset = Ok (typ, addr, size) →
  offset + 12 ≤ Z.of_nat (length data).
Proof.
  intros Hoff (bs & Hbs & _)%bind_Ok_inv.
  apply unpack_from_Ok_inv in Hbs; lia.
Qed.

(** A geometry object with a nonzero animation size is decoded with the
    shape of the version: its size array has to fit with the entry count
    of the shape, and its table is the one the shape describes. *)
Lemma lmo_object_by_shape (data : list byte) (lmo_version : Z)
    (i typ addr size mtl_size mesh_size helper_size anim_size : Z)
    (results : list (Z * AnimInfo)) :
  0 ≤ i →
  unpack_III data (8 + i * 12) = Ok (typ, addr, size) →
  typ = OBJ_TYPE_GEOMETRY →
  addr + 116 ≤ Z.of_nat (length data) →
  unpack_IIII data (addr + 100)
  = Ok (mtl_size, mesh_size, helper_size, anim_size) →
  anim_size ≠ 0 →
  lmo_object data (anim_format lmo_version) i results
  = Ok (Next,
        let off := addr + 116 + mtl_size + mesh_size + helper_size in
        if decide (off + spec_entries_count lmo_version * 4
                     ≤ Z.of_nat (length data)
                   ∧ spec_entries_count lmo_version * 4
                     + anim_total (spec_table data lmo_version off)
                     = anim_size
                   ∧ has_channel_data (spec_table data lmo_version off)
                     = true)
        then results ++ [(i, spec_table data lmo_version off)]
        else results).
Proof.
  intros Hi Hd -> Hpre Hs Hanim.
  assert (8 + i * 12 + 12 ≤ Z.of_nat (length data)) as Hent
    by (eapply unpack_III_Ok_fits; [|exact Hd]; lia).
  pose proof (unpack_III_nonneg _ _ _ _ _ Hd) as (_ & Haddr & _).
  pose proof (unpack_IIII_nonneg _ _ _ _ _ _ Hs) as (Hmtl & Hmesh & Hhlp & _).
  unfold lmo_object. rewrite decide_False by lia.
  rewrite Hd, bind_Ok. cbn beta iota.
  rewrite decide_False by (intros Hne; by apply Hne).
  rewrite decide_False by lia. rewrite decide_False by lia.
  rewrite Hs, bind_Ok. cbn beta iota.
  rewrite decide_False by done. cbv zeta.
  rewrite header_bytes_spec.
  set (off := addr + 116 + mtl_size + mesh_size + helper_size).
  case_decide as Hfit.
  { rewrite decide_False; [done|]. intros (? & _). lia. }
  rewrite read_anim_info_cells_eq
    by (rewrite ?header_bytes_spec; unfold off; lia).
  rewrite bind_Ok. fold (spec_table data lmo_version off).
  case_decide as Heq.
  { rewrite decide_False; [done|]. intros (_ & ? & _). done. }
  destruct (has_channel_data (spec_table data lmo_version off)) eqn:Hch.
  - rewrite decide_True; [done|]. split; [lia|]. split; [lia|done].
  - rewrite decide_False; [done|]. intros (_ & _ & ?). done.
Qed.

(** C3: for a nonzero version the decoder takes the shape of the animation
    header from the version through the threshold 0x1005 alone, and
    decodes every object with it. From 0x1005 on the shape has 146 entries
    (584 bytes) and a 16-slot opacity channel; below it, 130 entries (520
    bytes) and no opacity channel. A geometry object is reported only if
    its array fits with the entry count of the shape, and its table is then
    the one the shape describes: the opacity slots at +8 and the grids at
    +72 and +328, or no opacity entry and the grids at +8 and +264. 0x1004
    gets the 130-entry shape and 0x1005 the 146-entry one. *)
Theorem header_shape_by_threshold (data : list byte)
    (lmo_version obj_num : Z) :
  8 ≤ Z.of_nat (length data) →
  unpack_u32 data 0 = Ok lmo_version →
  unpack_u32 data 4 = Ok obj_num →
  lmo_version > 0 →
  (obj_num <= 500 →
     parse_lmo_animations data
     = range_loop obj_num (lmo_object data (anim_format lmo_version)) [])
  ∧ (lmo_version >= 0x1005 →
       anim_format lmo_version = mkAnimFormat 146 true 16
       ∧ header_bytes (anim_format lmo_version) = 584)
  ∧ (lmo_version < 0x1005 →
       anim_format lmo_version = mkAnimFormat 130 false 0
       ∧ header_bytes (anim_format lmo_version) = 520
       ∧ ∀ results i info,
           parse_lmo_animations data = Ok results → (i, info) ∈ results →
           mtlopac_sizes info = [])
  ∧ anim_format 0x1004 = mkAnimFormat 130 false 0
  ∧ anim_format 0x1005 = mkAnimFormat 146 true 16
  ∧ (∀ i typ addr size mtl_size mesh_size helper_size anim_size results,
       0 ≤ i →
       unpack_III data (8 + i * 12) = Ok (typ, addr, size) →
       typ = OBJ_TYPE_GEOMETRY →
       addr + 116 ≤ Z.of_nat (length data) →
       unpack_IIII data (addr + 100)
       = Ok (mtl_size, mesh_size, helper_size, anim_size) →
       anim_size ≠ 0 →
       lmo_object data (anim_format lmo_version) i results
       = Ok (Next,
             let off := addr + 116 + mtl_size + mesh_size + helper_size in
             if decide (off + spec_entries_count lmo_version * 4
                          ≤ Z.of_nat (length data)
                        ∧ spec_entries_count lmo_version * 4
                          + anim_total (spec_table data lmo_version off)
                          = anim_size
                        ∧ has_channel_data (spec_table data lmo_version off)
                          = true)
             then results ++ [(i, spec_table data lmo_version off)]
             else results))
  ∧ (∀ results i info,
       parse_lmo_animations data = Ok results → (i, info) ∈ results →
       ∃ typ addr size mtl_size mesh_size helper_size anim_size,
         unpack_III data (8 + i * 12) = Ok (typ, addr, size)
         ∧ unpack_IIII data (addr + 100)
           = Ok (mtl_size, mesh_size, helper_size, anim_size)
         ∧ addr + 116 + mtl_size + mesh_size + helper_size
           + spec_entries_count lmo_version * 4 ≤ Z.of_nat (length data)
         ∧ info = spec_table data lmo_version
                    (addr + 116 + mtl_size + mesh_size + helper_size)).
Proof.
  intros Hlen Hv Hn Hpos.
  split; [|split; [|split; [|split; [done|split; [done|split]]]]].
  - intros Hle. unfold parse_lmo_animations.
    case_decide; [lia|]. rewrite Hv, Hn, !bind_Ok.
    case_decide; [lia|]. case_decide; [lia|]. done.
  - intros Hge. unfold anim_format. by case_decide; [|lia].
  - intros Hlt. unfold anim_format at 1 2. case_decide; [lia|].
    split; [done|]. split; [done|].
    intros results i info Hparse Hin.
    destruct (parse_lmo_animations_decoded _ _ _ _ Hparse Hin)
      as (v & Hv' & Hdec).
    rewrite Hv in Hv'. inversion Hv'; subst v.
    destruct Hdec as (? & ? & ? & ? & ? & ? & ? & _ & _ & _ & _ & _ & Hinfo & _).
    apply read_anim_info_no_mtlopac in Hinfo; [done|].
    unfold anim_format. by case_decide; [lia|].
  - intros i typ addr size mtl mesh helper anim results ? Hd ? ? Hs ?.
    by apply (lmo_object_by_shape data lmo_version i typ addr size).
  - intros results i info Hparse Hin.
    destruct (parse_lmo_animations_decoded _ _ _ _ Hparse Hin)
      as (v & Hv' & typ & addr & size & mtl & mesh & helper & anim
            & Hd & _ & _ & Hs & _ & Hinfo & _).
    rewrite Hv in Hv'. inversion Hv'; subst v.
    exists typ, addr, size, mtl, mesh, helper, anim.
    split; [done|]. split; [done|].
    pose proof (unpack_III_nonneg _ _ _ _ _ Hd) as (_ & Haddr & _).
    pose proof (unpack_IIII_nonneg _ _ _ _ _ _ Hs) as (? & ? & ? & _).
    assert (addr + 116 + mtl + mesh + helper
            + header_bytes (anim_format lmo_version)
            ≤ Z.of_nat (length data)) as Hfit
      by (eapply read_anim_info_Ok_fits; [|exact Hinfo]; lia).
    rewrite read_anim_info_cells_eq in Hinfo by (done || lia).
    rewrite header_bytes_spec in Hfit. split; [done|].
    by inversion Hinfo.
Qed.

Lemma header_shape_by_threshold_witness :
  lmo_object (versioned_file 0x1005 591) (anim_format 0x1005) 0 []
  = Ok (Next, [(0, mkAnimInfo 0 0 [(0, 7)] [] [])])
  ∧ lmo_object (versioned_file 0x1004 527) (anim_format 0x1004) 0 []
    = Ok (Next, [(0, mkAnimInfo 0 0 [] [(0, 0, 7)] [])])
  ∧ parse_lmo_animations (versioned_file 0x1005 591)
    = range_loop 1
        (lmo_object (versioned_file 0x1005 591) (anim_format 0x1005)) []
  ∧ anim_format 0x1000 = mkAnimFormat 130 false 0.
Proof.
  destruct (header_shape_by_threshold (versioned_file 0x1005 591) 0x1005 1)
    as (Huse & _ & _ & _ & _ & Hobj_hi & _);
    [vm_compute; discriminate | reflexivity | reflexivity | lia |].
  destruct (header_shape_by_threshold (versioned_file 0x1004 527) 0x1004 1)
    as (_ & _ & _ & _ & _ & Hobj_lo & _);
    [vm_compute; discriminate | reflexivity | reflexivity | lia |].
  destruct (header_shape_by_threshold (one_object_file 636 648) 0x1000 1)
    as (_ & _ & Hlow & _);
    [vm_compute; discriminate | reflexivity | reflexivity | lia |].
  split; [|split; [|split]].
  - rewrite (Hobj_hi 0 1 20 700 0 0 0 591 []);
      [vm_compute; reflexivity | lia | reflexivity | reflexivity
       | vm_compute; discriminate | reflexivity | lia].
  - rewrite (Hobj_lo 0 1 20 700 0 0 0 527 []);
      [vm_compute; reflexivity | lia | reflexivity | reflexivity
       | vm_compute; discriminate | reflexivity | lia].
  - apply Huse. lia.
  - apply Hlow. lia.
Defined.

(** ** What the reported tables look like *)

Lemma elem_of_grid_entries (data : list byte) (off s t val : Z) :
  (s, t, val) ∈ grid_entries data off
  ↔ 0 ≤ s < 16 ∧ 0 ≤ t < 4 ∧ val > 0
    ∧ val = u32_at data (off + (s * 4 + t) * 4).
Proof.
  unfold grid_entries. rewrite list_elem_of_bind. split.
  - intros (s' & (t' & Hin & Ht)%list_elem_of_bind & Hs).
    apply elem_of_seqZ in Hs, Ht.
    case_decide; [|by apply elem_of_nil in Hin].
    apply list_elem_of_singleton in Hin. inversion Hin; subst.
    repeat split; try done; lia.
  - intros (Hs & Ht & Hpos & ->). exists s. split; [|apply elem_of_seqZ; lia].
    apply list_elem_of_bind. exists t. split; [|apply elem_of_seqZ; lia].
    case_decide; [|done]. by apply list_elem_of_singleton.
Qed.

Lemma elem_of_mtlopac_entries (data : list byte) (off count s val : Z) :
  (s, val) ∈ mtlopac_entries data off count
  ↔ 0 ≤ s < count ∧ val > 0 ∧ val = u32_at data (off + s * 4).
Proof.
  unfold mtlopac_entries. rewrite list_elem_of_bind. split.
  - intros (s' & Hin & Hs). apply elem_of_seqZ in Hs.
    case_decide; [|by apply elem_of_nil in Hin].
    apply list_elem_of_singleton in Hin. inversion Hin; subst.
    repeat split; try done; lia.
  - intros (Hs & Hpos & ->). exists s. split; [|apply elem_of_seqZ; lia].
    case_decide; [|done]. by apply list_elem_of_singleton.
Qed.

(** X3: every entry of a reported table is a nonzero 32-bit cell of the
    size array, listed with its position: a subset index below 16 and, in
    the two grids, a stage index below 4; and a reported table has an
    entry in at least one of its three lists. *)
Theorem reported_entries_nonzero (data : list byte)
    (results : list (Z * AnimInfo)) (i : Z) (info : AnimInfo) :
  parse_lmo_animations data = Ok results → (i, info) ∈ results →
  (∀ s t val,
     (s, t, val) ∈ texuv_sizes info ∨ (s, t, val) ∈ teximg_sizes info →
     0 ≤ s < 16 ∧ 0 ≤ t < 4 ∧ 0 < val < 2 ^ 32)
  ∧ (∀ s val, (s, val) ∈ mtlopac_sizes info →
       0 ≤ s < 16 ∧ 0 < val < 2 ^ 32)
  ∧ (texuv_sizes info ≠ [] ∨ teximg_sizes info ≠ []
     ∨ mtlopac_sizes info ≠ []).
Proof.
  intros Hparse Hin.
  destruct (parse_lmo_animations_decoded _ _ _ _ Hparse Hin)
    as (v & _ & typ & addr & size & mtl & mesh & helper & anim
          & Hd & _ & _ & Hs & _ & Hinfo & _ & Hch).
  apply unpack_III_nonneg in Hd as (_ & Haddr & _).
  apply unpack_IIII_nonneg in Hs as (Hmtl & Hmesh & Hhelper & _).
  assert (Hoff : 0 ≤ addr + 116 + mtl + mesh + helper) by lia.
  pose proof (read_anim_info_Ok_fits _ _ _ _ Hoff Hinfo) as Hfit.
  rewrite read_anim_info_cells_eq in Hinfo by done.
  split; [|split].
  - intros s t val Hentry. inversion Hinfo as [Heq]. clear Hinfo.
    assert (∃ off, (s, t, val) ∈ grid_entries data off) as [off Hcell].
    { destruct (decide (v >= 4101)); subst info; cbn in Hentry;
        destruct Hentry; eauto. }
    apply elem_of_grid_entries in Hcell as (? & ? & ? & ->).
    pose proof (u32_at_range data (off + (s * 4 + t) * 4)). lia.
  - intros s val Hentry. inversion Hinfo as [Heq]. clear Hinfo.
    destruct (decide (v >= 4101)); subst info; cbn in Hentry;
      [|by apply elem_of_nil in Hentry].
    apply elem_of_mtlopac_entries in Hentry as (? & ? & ->).
    pose proof (u32_at_range data (addr + 116 + mtl + mesh + helper + 8
                                   + s * 4)). lia.
  - unfold has_channel_data in Hch.
    destruct (decide (texuv_sizes info = [])) as [Huv|]; [|by left].
    destruct (decide (teximg_sizes info = [])) as [Himg|]; [|by right; left].
    destruct (decide (mtlopac_sizes info = [])) as [Hop|];
      [|by right; right].
    rewrite !bool_decide_eq_true_2 in Hch by done. discriminate.
Qed.

Lemma reported_entries_nonzero_witness :
  (∀ s t val,
     (s, t, val) ∈ texuv_sizes uv_only_info
     ∨ (s, t, val) ∈ teximg_sizes uv_only_info →
     0 ≤ s < 16 ∧ 0 ≤ t < 4 ∧ 0 < val < 2 ^ 32)
  ∧ (∀ s val, (s, val) ∈ mtlopac_sizes uv_only_info →
       0 ≤ s < 16 ∧ 0 < val < 2 ^ 32)
  ∧ (texuv_sizes uv_only_info ≠ [] ∨ teximg_sizes uv_only_info ≠ []
     ∨ mtlopac_sizes uv_only_info ≠ []).
Proof.
  apply (reported_entries_nonzero (one_object_file 636 648)
           [(0, uv_only_info)] 0 uv_only_info);
    [vm_compute; reflexivity | apply list_elem_of_singleton; reflexivity].
Defined.

(** X4: the tables are reported in the order of the directory, one at most
    for an object: the indices of the result are below the object count,
    belong to directory entries that lie inside the buffer, and increase
    strictly along the list. *)
Theorem reported_in_directory_order (data : list byte)
    (results : list (Z * AnimInfo)) :
  parse_lmo_animations data = Ok results →
  (∀ i info, (i, info) ∈ results →
     0 ≤ i < obj_num_of data
     ∧ 8 + i * 12 + 12 ≤ Z.of_nat (length data))
  ∧ (∀ (a b : nat) i j info_a info_b,
       (a < b)%nat →
       results !! a = Some (i, info_a) → results !! b = Some (j, info_b) →
       i < j).
Proof.
  unfold parse_lmo_animations. intros H.
  assert (Hnil : ∀ rs : list (Z * AnimInfo), rs = [] →
    (∀ i info, (i, info) ∈ rs →
       0 ≤ i < obj_num_of data ∧ 8 + i * 12 + 12 ≤ Z.of_nat (length data))
    ∧ (∀ (a b : nat) i j info_a info_b, (a < b)%nat →
         rs !! a = Some (i, info_a) → rs !! b = Some (j, info_b) → i < j)).
  { intros rs ->. split; [by intros i info ?%elem_of_nil|].
    intros a b i j ia ib _ Ha. by rewrite lookup_nil in Ha. }
  case_decide; [apply Hnil; by inversion H|].
  case_read. rename a into lmo_version. case_read. rename a into obj_num.
  case_decide; [apply Hnil; by inversion H|].
  case_decide; [apply Hnil; by inversion H|].
  rewrite unpack_u32_ok in Hread0 by lia. inversion Hread0 as [Hnum].
  fold (obj_num_of data) in Hnum. clear Hnil.
  pose proof (range_loop_post _
    (λ j rs, (∀ i info, (i, info) ∈ rs →
                0 ≤ i < j ∧ 8 + i * 12 + 12 ≤ Z.of_nat (length data))
             ∧ (∀ (a b : nat) i k info_a info_b, (a < b)%nat →
                  rs !! a = Some (i, info_a) → rs !! b = Some (k, info_b) →
                  i < k))
    _ _ _ H) as Hpost.
  cbn beta in Hpost. destruct Hpost as [Hrange Hsorted].
  - split; [by intros i info ?%elem_of_nil|].
    intros a b i j ia ib _ Ha. by rewrite lookup_nil in Ha.
  - intros j rs f rs' Hj [Hrange Hsorted] Hbody.
    assert (Hkeep : f = Break → rs' = rs).
    { intros ->. by apply lmo_object_spec in Hbody as [?|[? _]]. }
    assert (Hinside : rs' ≠ rs → 8 + j * 12 + 12 ≤ Z.of_nat (length data)).
    { intros Hne. revert Hbody. unfold lmo_object.
      case_decide; [|lia]. by intros [= _ <-]. }
    apply lmo_object_spec in Hbody as [-> | (-> & info & -> & _)].
    + destruct f; (split; [|done]); intros i info Hi;
        destruct (Hrange i info Hi); lia.
    + split.
      * intros i inf [Hold | Hnew%list_elem_of_singleton]%elem_of_app.
        -- destruct (Hrange i inf Hold). lia.
        -- inversion Hnew; subst. split; [lia|]. apply Hinside.
           intros Heq. apply (f_equal length) in Heq.
           rewrite length_app in Heq. cbn in Heq. lia.
      * intros a b i k ia ib Hab Ha Hb.
        destruct (decide (b < length rs)%nat) as [Hlt|Hge].
        -- rewrite lookup_app_l in Ha, Hb by lia.
           exact (Hsorted a b i k ia ib Hab Ha Hb).
        -- rewrite lookup_app_r in Hb by lia.
           destruct (b - length rs)%nat eqn:Hidx; [|by destruct n].
           cbn in Hb. inversion Hb; subst.
           rewrite lookup_app_l in Ha by lia.
           apply list_elem_of_lookup_2 in Ha.
           destruct (Hrange _ _ Ha). lia.
  - split; [|done]. intros i info Hi. destruct (Hrange i info Hi).
    pose proof (le_uint_nonneg (slice data 4 4)). unfold obj_num_of in *.
    lia.
Qed.

Lemma reported_in_directory_order_witness :
  (∀ i info, (i, info) ∈ [(0, uv_only_info)] →
     0 ≤ i < obj_num_of (one_object_file 636 648)
     ∧ 8 + i * 12 + 12 ≤ Z.of_nat (length (one_object_file 636 648)))
  ∧ (∀ (a b : nat) i j info_a info_b,
       (a < b)%nat →
       [(0, uv_only_info)] !! a = Some (i, info_a) →
       [(0, uv_only_info)] !! b = Some (j, info_b) →
       i < j).
Proof.
  apply (reported_in_directory_order (one_object_file 636 648)).
  vm_compute. reflexivity.
Defined.

(** ** What the placement decoder returns *)

Lemma decode_placement_range (raw_type_id obj_type obj_id : Z) :
  decode_placement raw_type_id = Some (obj_type, obj_id) →
  (obj_type = 0 ∨ obj_type = 1) ∧ 1 ≤ obj_id ≤ 16383.
Proof.
  unfold decode_placement. case_decide as Hkeep; [|done].
  intros [= <- <-]. destruct Hkeep as [Hid Hty].
  assert (0 ≤ Z.land raw_type_id 0xFFFF).
  { apply Z.land_nonneg. right. lia. }
  assert (0 ≤ obj_type_of raw_type_id).
  { unfold obj_type_of. by apply Z.shiftr_nonneg. }
  assert (obj_id_of raw_type_id < 16384).
  { unfold obj_id_of.
    change (Z.land (Z.land raw_type_id 65535) 16383)
      with (Z.land (Z.land raw_type_id 65535) (Z.ones 14)).
    rewrite Z.land_ones by lia. apply Z.mod_pos_bound. lia. }
  lia.
Qed.

(** X5: every placement the decoder returns has kind 0 or 1 and an object
    id between 1 and 16383. *)
Theorem placements_in_range (data : list byte) (placements : list (Z * Z))
    (obj_type obj_id : Z) :
  parse_obj_file data = Ok placements →
  (obj_type, obj_id) ∈ placements →
  (obj_type = 0 ∨ obj_type = 1) ∧ 1 ≤ obj_id ≤ 16383.
Proof.
  unfold parse_obj_file.
  destruct (obj_placements_spec data) as (st & -> & Hst).
  rewrite bind_Ok. intros [= <-] Hin.
  apply elem_of_elements, Hst in Hin as (_ & s & j & Hplaced).
  destruct Hplaced as (_ & _ & _ & _ & _ & Hdec).
  by apply decode_placement_range in Hdec.
Qed.

Lemma placements_in_range_witness :
  (0 = 0 ∨ 0 = 1) ∧ 1 ≤ 42 ≤ 16383.
Proof.
  apply (placements_in_range two_section_file [(0, 42)] 0 42);
    [vm_compute; reflexivity | apply list_elem_of_singleton; reflexivity].
Defined.

(** X6: the placement decoder returns the empty list, without an
    exception, for a buffer shorter than the 44-byte header, for a version
    other than 600, for a grid whose section count (the product of the two
    signed dimensions) is zero or negative, and for a section index that
    does not fit in the buffer. *)
Theorem unrecognized_map_is_empty (data : list byte) :
  Z.of_nat (length data) < 44
  ∨ to_signed 32 (le_uint (slice data 16 4)) ≠ 600
  ∨ section_cnt_of data ≤ 0
  ∨ 44 + section_cnt_of data * 8 > Z.of_nat (length data) →
  parse_obj_file data = Ok [].
Proof.
  intros Hcase. unfold parse_obj_file.
  destruct (obj_placements_spec data) as (st & -> & Hst).
  rewrite bind_Ok. unfold mret, res_ret. f_equal.
  assert (st = ∅) as ->; [|apply elements_empty].
  apply set_eq. intros p. rewrite Hst. split; [|by intros ?%not_elem_of_empty].
  intros [(Hlen & Hver & Hfit) (s & j & Hs & _)].
  destruct Hcase as [?|[?|[?|?]]]; [lia | done | lia | lia].
Qed.

Lemma unrecognized_map_is_empty_witness :
  parse_obj_file (take 43 two_section_file) = Ok []
  ∧ parse_obj_file (take 59 two_section_file) = Ok [].
Proof.
  split; apply unrecognized_map_is_empty.
  - left. vm_compute. reflexivity.
  - right; right; right. vm_compute. reflexivity.
Defined.

(** ** The catalog decoder, record by record *)

Lemma unpack_from_Ok_val (width : nat) (data bs : list byte) (offset : Z) :
  0 ≤ offset → unpack_from width data offset = Ok bs →
  bs = slice data offset width.
Proof.
  intros Hoff. unfold unpack_from.
  case_decide; [lia|]. case_decide; [discriminate|]. by intros [= <-].
Qed.

Lemma for_range_unchanged {St : Type} (body : Z → St → res (flow * St))
    (n : nat) (i : Z) (st : St) :
  (∀ j, i ≤ j < i + Z.of_nat n → body j st = Ok (Next, st)) →
  for_range body n i st = Ok st.
Proof.
  revert i. induction n as [|n IH]; intros i Hbody; [done|].
  cbn [for_range]. rewrite Hbody by lia. apply IH.
  intros j Hj. apply Hbody. lia.
Qed.

Lemma for_range_raises {St : Type} (body : Z → St → res (flow * St))
    (e : exn) (n : nat) (i k : Z) (st : St) :
  (∀ j, i ≤ j < i + Z.of_nat n →
        body j st = Ok (Next, st) ∨ body j st = Raise e) →
  i ≤ k < i + Z.of_nat n → body k st = Raise e →
  for_range body n i st = Raise e.
Proof.
  revert i. induction n as [|n IH]; intros i Hbody Hk Hraise; [lia|].
  cbn [for_range]. destruct (decide (k = i)) as [->|Hne].
  - by rewrite Hraise.
  - destruct (Hbody i ltac:(lia)) as [-> | ->]; [|done].
    apply IH; [|lia | done]. intros j Hj. apply Hbody. lia.
Qed.

Section CatalogRecords.
Variable decode_utf8_replace : list byte → str.
Variables strip lower : str → str.

Local Abbreviation parse :=
  (parse_sceneobjinfo_bin decode_utf8_replace strip lower).
Local Abbreviation entry := (sceneobj_entry decode_utf8_replace strip lower).
Local Abbreviation included :=
  (included_record decode_utf8_replace strip lower).

(** A record that is stored was read in full: its id and name are those
    of [included_record]. *)
Lemma sceneobj_entry_inv (data : list byte) (entry_size i : Z)
    (result result' : gmap Z str) (f : flow) :
  0 ≤ i → 0 < entry_size →
  entry data entry_size i result = Ok (f, result') →
  result' = result
  ∨ ∃ obj_id name,
      result' = <[obj_id := name]> result
      ∧ (i + 1) * entry_size ≤ Z.of_nat (length data)
      ∧ included data entry_size i = Some (obj_id, name).
Proof using Type.
  intros Hi Hes. unfold sceneobj_entry, included_record.
  case_decide as Hbrk; [intros [= _ <-]; by left|].
  assert ((i + 1) * entry_size ≤ Z.of_nat (length data)) by nia.
  intros Hrun. apply bind_Ok_inv in Hrun as (b_exist & Hex & Hrun).
  apply bind_Ok_inv in Hex as (bs & Hbs & [= <-]).
  apply unpack_from_Ok_val in Hbs as ->; [|done].
  case_decide; [inversion Hrun; by left|].
  apply bind_Ok_inv in Hrun as (obj_id & Hid & Hrun).
  apply bind_Ok_inv in Hid as (bs & Hbs & [= <-]).
  apply unpack_from_Ok_val in Hbs as ->; [|done].
  case_decide; inversion Hrun; subst; [|by left].
  right. eauto.
Qed.

(** X7: whatever the record width, every entry of a catalog that was
    decoded comes from a record of the buffer with a nonzero exists flag:
    its key is the 32-bit id of the record and its name, the non-empty
    normalized name of the record. *)
Theorem catalog_entries_from_records (data : list byte)
    (result : gmap Z str) (obj_id : Z) (name : str) :
  parse data = Ok result → result !! obj_id = Some name →
  name ≠ [] ∧ 0 ≤ obj_id < 2 ^ 32
  ∧ ∃ k, 0 ≤ k
         ∧ (k + 1) * u32_at data 0 ≤ Z.of_nat (length (drop 4 data))
         ∧ record_exists (drop 4 data) (u32_at data 0) k ≠ 0
         ∧ included (drop 4 data) (u32_at data 0) k = Some (obj_id, name).
Proof using Type.
  unfold parse_sceneobjinfo_bin. intros Hparse Hlook.
  case_decide; [inversion Hparse; subst; by rewrite lookup_empty in Hlook|].
  rewrite unpack_u32_ok, bind_Ok in Hparse by lia.
  fold (u32_at data 0) in Hparse.
  pose proof (u32_at_range data 0) as Hes.
  case_decide; [inversion Hparse; subst; by rewrite lookup_empty in Hlook|].
  set (es := u32_at data 0) in *. set (body := drop 4 data) in *.
  assert (Hall : ∀ id nm, result !! id = Some nm →
            ∃ k, 0 ≤ k ∧ (k + 1) * es ≤ Z.of_nat (length body)
                 ∧ included body es k = Some (id, nm)).
  { pose proof (range_loop_post _
      (λ _ st, ∀ id nm, st !! id = Some nm →
         ∃ k, 0 ≤ k ∧ (k + 1) * es ≤ Z.of_nat (length body)
              ∧ included body es k = Some (id, nm))
      _ _ _ Hparse) as Hpost.
    apply Hpost; clear Hpost.
    - intros id nm Hl. by rewrite lookup_empty in Hl.
    - intros j st f st' Hj Hst Hbody.
      apply sceneobj_entry_inv in Hbody; [|lia|lia].
      destruct Hbody as [-> | (id0 & nm0 & -> & Hfits & Hrec)].
      + by destruct f.
      + assert (∀ id nm, <[id0:=nm0]> st !! id = Some nm →
          ∃ k, 0 ≤ k ∧ (k + 1) * es ≤ Z.of_nat (length body)
               ∧ included body es k = Some (id, nm)); [|by destruct f].
        intros id nm Hl. destruct (decide (id0 = id)) as [->|Hne].
        * rewrite lookup_insert_eq in Hl. inversion Hl; subst.
          exists j. split; [lia|]. done.
        * rewrite lookup_insert_ne in Hl by done. by apply Hst. }
  destruct (Hall _ _ Hlook) as (k & Hk0 & Hk & Hrec).
  pose proof Hrec as Hrec'. unfold included_record in Hrec'.
  case_decide as Hex; [done|]. case_decide as Hnm; [|done].
  inversion Hrec'; subst.
  split; [done|].
  split; [apply (u32_at_range _ 100)|].
  exists k. done.
Qed.
End CatalogRecords.

Lemma catalog_entries_from_records_witness :
  [100%N] ≠ [] ∧ 0 ≤ 7 < 2 ^ 32
  ∧ ∃ k, 0 ≤ k
         ∧ (k + 1) * u32_at two_record_catalog 0
           ≤ Z.of_nat (length (drop 4 two_record_catalog))
         ∧ record_exists (drop 4 two_record_catalog)
             (u32_at two_record_catalog 0) k ≠ 0
         ∧ included_record decode_bytewise keep_text keep_text
             (drop 4 two_record_catalog) (u32_at two_record_catalog 0) k
           = Some (7, [100%N]).
Proof.
  destruct (parse_sceneobjinfo_bin decode_bytewise keep_text keep_text
              two_record_catalog) as [result|e] eqn:Hparse;
    [|vm_compute in Hparse; discriminate].
  apply (catalog_entries_from_records decode_bytewise keep_text keep_text
           two_record_catalog result 7 [100%N] Hparse).
  vm_compute in Hparse. inversion Hparse. vm_compute. reflexivity.
Defined.

(** ** Records narrower than 104 bytes *)

Section CatalogNarrow.
Variable decode_utf8_replace : list byte → str.
Variables strip lower : str → str.

Local Abbreviation parse :=
  (parse_sceneobjinfo_bin decode_utf8_replace strip lower).
Local Abbreviation entry := (sceneobj_entry decode_utf8_replace strip lower).

(** A complete record of less than 104 bytes is passed over when it is
    4 bytes wide at least and its exists flag is zero; reading it raises
    otherwise, at the flag or at the id. *)
Lemma sceneobj_entry_narrow (data : list byte) (entry_size k : Z)
    (result : gmap Z str) :
  0 ≤ k → 0 < entry_size < 104 →
  (k + 1) * entry_size ≤ Z.of_nat (length data) →
  entry data entry_size k result
  = if decide (4 ≤ entry_size ∧ record_exists data entry_size k = 0)
    then Ok (Next, result) else Raise StructError.
Proof using Type.
  intros Hk Hes Hfit. unfold sceneobj_entry, record_exists.
  case_decide; [nia|].
  assert (Hlen : length (slice data (k * entry_size) (Z.to_nat entry_size))
                 = Z.to_nat entry_size) by (apply length_slice; nia).
  destruct (decide (4 ≤ entry_size)) as [Hwide|Hshort].
  - rewrite unpack_i32_ok, bind_Ok by lia.
    case_decide as Hex.
    + by rewrite decide_True by done.
    + rewrite decide_False by tauto.
      unfold unpack_u32, unpack_from. rewrite Hlen.
      rewrite (decide_False (P := 100 < 0)) by lia.
      by rewrite decide_True by lia.
  - rewrite decide_False by tauto.
    unfold unpack_i32, unpack_from. rewrite Hlen.
    rewrite (decide_False (P := 0 < 0)) by lia.
    by rewrite decide_True by lia.
Qed.

(** X8: a catalog whose record width is positive and below 104 holds no
    record that can be stored. It decodes to the empty dictionary when
    each complete record is 4 bytes wide at least and has a zero exists
    flag (so also when there is no complete record), and the decoder
    raises [struct.error] as soon as one complete record is narrower than
    4 bytes or has a nonzero flag. *)
Theorem catalog_narrow_records (data : list byte) :
  let entry_size := u32_at data 0 in
  let entry_count := Z.of_nat (length (drop 4 data)) `div` entry_size in
  4 ≤ Z.of_nat (length data) →
  0 < entry_size < 104 →
  ((∀ k, 0 ≤ k < entry_count →
      4 ≤ entry_size ∧ record_exists (drop 4 data) entry_size k = 0) →
   parse data = Ok ∅)
  ∧ ((∃ k, 0 ≤ k < entry_count
           ∧ ¬ (4 ≤ entry_size
                ∧ record_exists (drop 4 data) entry_size k = 0)) →
     parse data = Raise StructError).
Proof using Type.
  intros entry_size entry_count Hlen Hes.
  assert (Hparse : parse data
    = range_loop entry_count (entry (drop 4 data) entry_size) ∅).
  { unfold parse_sceneobjinfo_bin. case_decide; [lia|].
    rewrite unpack_u32_ok, bind_Ok by lia. fold (u32_at data 0).
    fold entry_size. case_decide; [lia|]. done. }
  assert (Hcnt : entry_count * entry_size ≤ Z.of_nat (length (drop 4 data))).
  { unfold entry_count. rewrite Z.mul_comm. apply Z.mul_div_le. lia. }
  assert (Hcnt0 : 0 ≤ entry_count) by (apply Z.div_pos; lia).
  rewrite Hparse. unfold range_loop. split.
  - intros Hall. apply for_range_unchanged. intros j Hj.
    rewrite sceneobj_entry_narrow by (lia || nia).
    rewrite decide_True; [done|]. apply Hall. lia.
  - intros (k & Hk & Hbad).
    apply (for_range_raises _ StructError _ _ k); [|lia|].
    + intros j Hj. rewrite sceneobj_entry_narrow by (lia || nia).
      case_decide; [by left | by right].
    + rewrite sceneobj_entry_narrow by (lia || nia).
      by rewrite decide_False.
Qed.
End CatalogNarrow.

Lemma catalog_narrow_records_witness :
  parse_sceneobjinfo_bin decode_bytewise keep_text keep_text
    (u32_le 4 ++ u32_le 0 ++ u32_le 0) = Ok ∅
  ∧ parse_sceneobjinfo_bin decode_bytewise keep_text keep_text
      (u32_le 4 ++ u32_le 0 ++ u32_le 1) = Raise StructError.
Proof.
  split.
  - apply (catalog_narrow_records decode_bytewise keep_text keep_text
             (u32_le 4 ++ u32_le 0 ++ u32_le 0));
      [vm_compute; discriminate | vm_compute; done |].
    change (Z.of_nat (length (drop 4 (u32_le 4 ++ u32_le 0 ++ u32_le 0)))
            `div` u32_at (u32_le 4 ++ u32_le 0 ++ u32_le 0) 0) with 2.
    intros k Hk.
    assert (k = 0 ∨ k = 1) as [-> | ->] by lia; vm_compute; split; congruence.
  - apply (catalog_narrow_records decode_bytewise keep_text keep_text
             (u32_le 4 ++ u32_le 0 ++ u32_le 1));
      [vm_compute; discriminate | vm_compute; done |].
    exists 1. vm_compute. repeat split; try congruence.
    intros [_ H]. discriminate.
Defined.

(** ** A trailing partial record *)

Lemma slice_app_l (l1 l2 : list byte) (start : Z) (width : nat) :
  0 ≤ start → start + Z.of_nat width ≤ Z.of_nat (length l1) →
  slice (l1 ++ l2) start width = slice l1 start width.
Proof.
  intros Hstart Hfit. unfold slice.
  rewrite drop_app_le by lia. rewrite take_app_le; [done|].
  rewrite length_drop. lia.
Qed.

Section CatalogTail.
Variable decode_utf8_replace : list byte → str.
Variables strip lower : str → str.

Local Abbreviation parse :=
  (parse_sceneobjinfo_bin decode_utf8_replace strip lower).
Local Abbreviation included :=
  (included_record decode_utf8_replace strip lower).
Local Abbreviation last_of :=
  (last_included decode_utf8_replace strip lower).

Lemma included_record_app (data extra : list byte) (entry_size k : Z) :
  0 ≤ k → 0 < entry_size →
  (k + 1) * entry_size ≤ Z.of_nat (length data) →
  included (data ++ extra) entry_size k = included data entry_size k.
Proof using Type.
  intros Hk Hes Hfit. unfold included_record.
  by rewrite slice_app_l by nia.
Qed.

(** X9: bytes after the last complete record do not count. With records of
    104 bytes or more, appending to a catalog fewer bytes than it takes to
    complete one more record leaves the decoded dictionary as it was. *)
Theorem trailing_partial_record_dropped (data extra : list byte) :
  4 ≤ Z.of_nat (length data) →
  104 ≤ u32_at data 0 →
  (Z.of_nat (length data) - 4) `mod` u32_at data 0
    + Z.of_nat (length extra) < u32_at data 0 →
  parse (data ++ extra) = parse data.
Proof using Type.
  intros Hlen Hwide Htail.
  assert (Hes : u32_at (data ++ extra) 0 = u32_at data 0).
  { unfold u32_at. by rewrite slice_app_l by lia. }
  destruct (parse_sceneobjinfo_bin_wide decode_utf8_replace strip lower data)
    as (r1 & -> & Hr1); [done | done |].
  destruct (parse_sceneobjinfo_bin_wide decode_utf8_replace strip lower
              (data ++ extra)) as (r2 & -> & Hr2).
  { rewrite length_app. lia. }
  { fold (u32_at (data ++ extra) 0). by rewrite Hes. }
  f_equal. apply map_eq. intros obj_id.
  apply option_eq. intros name. rewrite Hr1, Hr2.
  fold (u32_at (data ++ extra) 0) (u32_at data 0). rewrite Hes.
  set (es := u32_at data 0) in *.
  rewrite drop_app_le by lia. rewrite length_app.
  set (body := drop 4 data).
  assert (Hbody : Z.of_nat (length body) = Z.of_nat (length data) - 4).
  { unfold body. rewrite length_drop. lia. }
  rewrite <- Hbody in Htail.
  assert (Hcount : Z.of_nat (length body + length extra) `div` es
                   = Z.of_nat (length body) `div` es).
  { pose proof (Z.div_mod (Z.of_nat (length body)) es ltac:(lia)) as Hdm.
    pose proof (Z.mod_pos_bound (Z.of_nat (length body)) es ltac:(lia)).
    symmetry.
    apply (Z.div_unique_pos _ _ _
             (Z.of_nat (length body) `mod` es + Z.of_nat (length extra)));
      lia. }
  rewrite Hcount.
  assert (Hfit : ∀ k, 0 ≤ k < Z.of_nat (length body) `div` es →
                      (k + 1) * es ≤ Z.of_nat (length body)).
  { intros k Hk.
    pose proof (Z.mul_div_le (Z.of_nat (length body)) es ltac:(lia)). nia. }
  unfold last_included. split.
  - intros (k & Hk & Hrec & Hlast). exists k. split; [done|].
    rewrite included_record_app in Hrec by (auto || lia). split; [done|].
    intros k' name' Hk'. specialize (Hlast k' name' Hk').
    rewrite included_record_app in Hlast; [done | lia | lia |].
    apply Hfit. lia.
  - intros (k & Hk & Hrec & Hlast). exists k. split; [done|].
    rewrite included_record_app by (auto || lia). split; [done|].
    intros k' name' Hk'. rewrite included_record_app; [by apply Hlast| | |];
      [lia | lia | apply Hfit; lia].
Qed.
End CatalogTail.

Lemma trailing_partial_record_dropped_witness :
  parse_sceneobjinfo_bin decode_bytewise keep_text keep_text
    (two_record_catalog ++ zeros 103)
  = parse_sceneobjinfo_bin decode_bytewise keep_text keep_text
      two_record_catalog.
Proof.
  apply trailing_partial_record_dropped; vm_compute; congruence.
Defined.

(** ** The name of a record *)

Lemma find_zero_spec (bs : list byte) :
  (find_zero bs = -1 ∧ (x00%byte ∉ bs))
  ∨ (0 ≤ find_zero bs < Z.of_nat (length bs)
     ∧ bs !! Z.to_nat (find_zero bs) = Some x00%byte
     ∧ (x00%byte ∉ take (Z.to_nat (find_zero bs)) bs)).
Proof.
  induction bs as [|b bs IH]; cbn [find_zero].
  { left. split; [done|]. by intros ?%elem_of_nil. }
  case_decide as Hb.
  { right. subst b. cbn. split; [lia|]. split; [done|].
    by intros ?%elem_of_nil. }
  destruct IH as [[Hnone Hnot] | (Hrange & Hat & Hbefore)].
  - left. rewrite Hnone. case_decide; [|lia]. split; [done|].
    intros [?|?]%elem_of_cons; [congruence | done].
  - right. case_decide; [lia|].
    replace (Z.to_nat (1 + find_zero bs))
      with (S (Z.to_nat (find_zero bs))) by lia.
    cbn [length]. split; [lia|]. split; [done|]. cbn [take].
    intros [?|?]%elem_of_cons; [congruence | done].
Qed.

(** X10: the bytes that are decoded as the name of a record are the 72-byte
    name field (or what the record holds of it) up to its first zero byte:
    at most 72 bytes, none of them zero, and either the whole field or the
    part of it in front of a zero byte. *)
Theorem entry_name_bytes_spec (decode_utf8_replace : list byte → str)
    (strip lower : str → str) (chunk : list byte) :
  entry_name decode_utf8_replace strip lower chunk
  = lower (strip (decode_utf8_replace (entry_name_bytes chunk)))
  ∧ (length (entry_name_bytes chunk) ≤ 72)%nat
  ∧ (x00%byte ∉ entry_name_bytes chunk)
  ∧ (entry_name_bytes chunk = slice chunk 8 72
     ∨ ∃ rest, slice chunk 8 72
               = entry_name_bytes chunk ++ x00%byte :: rest).
Proof.
  split; [reflexivity|]. unfold entry_name_bytes.
  assert (Hfield : (length (slice chunk 8 72) ≤ 72)%nat)
    by (unfold slice; rewrite length_take; lia).
  destruct (find_zero_spec (slice chunk 8 72))
    as [[Hnone Hnot] | (Hrange & Hat & Hbefore)].
  - rewrite Hnone. cbn. split; [done|]. split; [done|]. by left.
  - case_decide; [|lia]. split; [rewrite length_take; lia|].
    split; [done|]. right.
    exists (drop (S (Z.to_nat (find_zero (slice chunk 8 72))))
              (slice chunk 8 72)).
    rewrite <- (take_drop_middle _ _ _ Hat) at 1. done.
Qed.

(** ** The bone/material scan *)

Lemma bone_mat_object_cases (data : list byte) (i : Z) (b : bool) :
  0 ≤ i →
  (¬ entry_fits data i ∧ bone_mat_object data i b = Ok (Break, b))
  ∨ (entry_fits data i ∧ bone_mat_hit data i
     ∧ bone_mat_object data i b = Ok (Break, true))
  ∨ (entry_fits data i ∧ ¬ bone_mat_hit data i
     ∧ bone_mat_object data i b = Ok (Next, b)).
Proof.
  intros Hi. unfold bone_mat_object, entry_fits.
  case_decide as Hbrk; [left; split; [lia | done]|].
  right.
  destruct (unpack_III_ok data (8 + i * 12)) as
    (typ & addr & size & Hd & _ & Haddr & _); [lia.. |].
  rewrite Hd, bind_Ok. cbn beta iota.
  assert (Hskip : ∀ P : Prop,
    (∀ mtl mesh helper anim,
       unpack_IIII data (addr + 100) = Ok (mtl, mesh, helper, anim) →
       typ = OBJ_TYPE_GEOMETRY →
       addr + 116 ≤ Z.of_nat (length data) → anim ≠ 0 →
       addr + 116 + mtl + mesh + helper + 8 ≤ Z.of_nat (length data) →
       u32_at data (addr + 116 + mtl + mesh + helper) > 0
       ∨ u32_at data (addr + 116 + mtl + mesh + helper + 4) > 0 → P) →
    bone_mat_hit data i → P).
  { intros P HP (t & a & s & m & e & h & n
                   & Hd' & Ht & Hfit & Hs & Hn & Hfit2 & Hpos).
    rewrite Hd in Hd'. inversion Hd'; subst. eauto. }
  case_decide as Htyp.
  { right. split; [lia|]. split; [|done].
    intros Hhit. apply (Hskip False); [|done]. intros. congruence. }
  case_decide as Hpre.
  { right. split; [lia|]. split; [|done].
    intros Hhit. apply (Hskip False); [|done]. intros. lia. }
  case_decide; [lia|].
  destruct (unpack_IIII_ok data (addr + 100)) as
    (mtl & mesh & helper & anim & Hs & Hmtl & Hmesh & Hhelper & _);
    [lia.. |].
  rewrite Hs, bind_Ok. cbn beta iota.
  case_decide as Hanim.
  { right. split; [lia|]. split; [|done].
    intros Hhit. apply (Hskip False); [|done].
    intros ???? Hs'. rewrite Hs in Hs'. inversion Hs'; subst. done. }
  case_decide as Hblk.
  { right. split; [lia|]. split; [|done].
    intros Hhit. apply (Hskip False); [|done].
    intros ???? Hs'. rewrite Hs in Hs'. inversion Hs'; subst. lia. }
  rewrite !unpack_u32_ok, !bind_Ok by lia.
  fold (u32_at data (addr + 116 + mtl + mesh + helper)).
  fold (u32_at data (addr + 116 + mtl + mesh + helper + 4)).
  case_decide as Hpos.
  - left. split; [lia|]. split; [|done].
    exists typ, addr, size, mtl, mesh, helper, anim.
    repeat split; try done; lia.
  - right. split; [lia|]. split; [|done].
    intros Hhit. apply (Hskip False); [|done].
    intros ???? Hs'. rewrite Hs in Hs'. inversion Hs'; subst. tauto.
Qed.

Lemma bone_mat_loop (data : list byte) (obj_num : Z) :
  ∃ b, range_loop obj_num (bone_mat_object data) false = Ok b
       ∧ (b = true ↔
          ∃ i, 0 ≤ i < obj_num ∧ entry_fits data i ∧ bone_mat_hit data i).
Proof.
  destruct (range_loop_inv (bone_mat_object data)
    (λ j b,
       (b = true ∧ ∃ i, 0 ≤ i < obj_num ∧ entry_fits data i
                        ∧ bone_mat_hit data i)
       ∨ (b = false ∧ ∀ i, 0 ≤ i < j →
                           ¬ (entry_fits data i ∧ bone_mat_hit data i)))
    obj_num false) as (b & Hloop & Hb).
  - right. split; [done|]. intros i Hi. lia.
  - intros j b Hj [[-> Hfound] | [-> Hnone]].
    + destruct (bone_mat_object_cases data j true) as
        [[_ ->] | [(_ & _ & ->) | (_ & _ & ->)]]; [lia | ..];
        do 2 eexists; (split; [reflexivity|]); by left.
    + destruct (bone_mat_object_cases data j false) as
        [[Hout ->] | [(Hfits & Hhit & ->) | (Hfits & Hno & ->)]]; [lia | ..];
        do 2 eexists; (split; [reflexivity|]).
      * right. split; [done|]. intros i Hi [Hfi Hhi].
        destruct (decide (i < j)) as [Hlt|Hge].
        -- apply (Hnone i); [lia|]. by split.
        -- unfold entry_fits in *. lia.
      * left. split; [done|]. exists j. split; [lia|]. done.
      * right. split; [done|]. intros i Hi.
        destruct (decide (i = j)) as [->|]; [tauto|]. apply Hnone. lia.
  - exists b. split; [done|].
    destruct Hb as [[-> Hfound] | [-> Hnone]]; [done|].
    split; [done|]. intros (i & Hi & Hhit). exfalso.
    apply (Hnone i); [lia | done].
Qed.

Lemma u32_at_take (data : list byte) :
  le_uint (slice (take 4 data) 0 4) = u32_at data 0.
Proof.
  unfold u32_at, slice. cbn [Z.to_nat drop]. rewrite drop_0.
  by rewrite take_take.
Qed.

(** X11: a file whose base name is not a key of [lmo_anim_data] and that
    has its 8-byte header, a nonzero version and an object count of 500 at
    most is counted by the scan exactly when some directory entry, inside
    the buffer and below the object count, is a geometry entry whose
    animation block starts inside the buffer with a nonzero bone size or a
    nonzero material size. A file whose base name is a key of
    [lmo_anim_data] is not counted, whatever its objects. *)
Theorem bone_mat_scan_spec (lmo_anim_data : gmap str (list (Z * AnimInfo)))
    (basename : str) (data : list byte) :
  8 ≤ Z.of_nat (length data) → u32_at data 0 ≠ 0 →
  obj_num_of data <= 500 →
  ∃ b, lmo_bone_mat_only lmo_anim_data basename data = Ok b
       ∧ (b = true ↔
          lmo_anim_data !! basename = None
          ∧ ∃ i, 0 ≤ i < obj_num_of data ∧ entry_fits data i
                 ∧ bone_mat_hit data i).
Proof.
  intros Hlen Hver Hnum. unfold lmo_bone_mat_only.
  destruct (decide (is_Some (lmo_anim_data !! basename))) as [Hin|Hout].
  { exists false. split; [done|]. split; [done|].
    intros [Hnone _]. rewrite Hnone in Hin. by destruct Hin. }
  apply eq_None_not_Some in Hout. cbv zeta.
  rewrite length_take. case_decide; [lia|].
  rewrite (unpack_u32_ok (take 4 data) 0), bind_Ok
    by (rewrite ?length_take; lia).
  rewrite u32_at_take. case_decide; [done|].
  rewrite (unpack_u32_ok data 4), bind_Ok by lia. fold (obj_num_of data).
  case_decide; [lia|].
  destruct (bone_mat_loop data (obj_num_of data)) as (b & Hb & Hiff).
  exists b. split; [done|]. rewrite Hiff. tauto.
Qed.

Lemma bone_mat_scan_spec_witness :
  (∃ b, lmo_bone_mat_only ∅ [97%N] (bone_only_file 5) = Ok b
        ∧ (b = true ↔
           (∅ : gmap str (list (Z * AnimInfo))) !! [97%N] = None
           ∧ ∃ i, 0 ≤ i < obj_num_of (bone_only_file 5)
                  ∧ entry_fits (bone_only_file 5) i
                  ∧ bone_mat_hit (bone_only_file 5) i))
  ∧ (∃ b, lmo_bone_mat_only {[ [97%N] := [(0, bone_and_uv_info)] ]}
            [97%N] bone_and_uv_file = Ok b
          ∧ (b = true ↔
             ({[ [97%N] := [(0, bone_and_uv_info)] ]}
                : gmap str (list (Z * AnimInfo))) !! [97%N] = None
             ∧ ∃ i, 0 ≤ i < obj_num_of bone_and_uv_file
                    ∧ entry_fits bone_and_uv_file i
                    ∧ bone_mat_hit bone_and_uv_file i)).
Proof.
  split; apply bone_mat_scan_spec; vm_compute; congruence.
Defined.

(** X12: the scan raises [struct.error] exactly on a file whose base name
    is not a key of [lmo_anim_data] and whose content has 4 to 7 bytes and
    a nonzero version: it reads the object count of such a file without
    looking at the length. On every other file it returns, and a file whose
    base name is a key of [lmo_anim_data] is passed over, whatever its
    content. The container decoder returns the empty list on a buffer of
    4 to 7 bytes, so the first pass stores nothing for such a file. *)
Theorem bone_mat_scan_raises_iff
    (lmo_anim_data : gmap str (list (Z * AnimInfo)))
    (basename : str) (data : list byte) :
  (lmo_bone_mat_only lmo_anim_data basename data = Raise StructError
   ↔ lmo_anim_data !! basename = None
     ∧ 4 ≤ Z.of_nat (length data) < 8 ∧ u32_at data 0 ≠ 0)
  ∧ (lmo_bone_mat_only lmo_anim_data basename data = Raise StructError
     ∨ ∃ b, lmo_bone_mat_only lmo_anim_data basename data = Ok b)
  ∧ (is_Some (lmo_anim_data !! basename) →
     lmo_bone_mat_only lmo_anim_data basename data = Ok false)
  ∧ (4 ≤ Z.of_nat (length data) < 8 → parse_lmo_animations data = Ok []).
Proof.
  assert (Hcases :
    (lmo_anim_data !! basename = None
     ∧ 4 ≤ Z.of_nat (length data) < 8 ∧ u32_at data 0 ≠ 0
     ∧ lmo_bone_mat_only lmo_anim_data basename data = Raise StructError)
    ∨ (¬ (lmo_anim_data !! basename = None
          ∧ 4 ≤ Z.of_nat (length data) < 8 ∧ u32_at data 0 ≠ 0)
       ∧ ∃ b, lmo_bone_mat_only lmo_anim_data basename data = Ok b)).
  { unfold lmo_bone_mat_only.
    destruct (decide (is_Some (lmo_anim_data !! basename))) as [Hin|Hout].
    { right. split; [|by eexists]. intros [Hnone _].
      rewrite Hnone in Hin. by destruct Hin. }
    apply eq_None_not_Some in Hout. cbv zeta. rewrite length_take.
    case_decide; [right; split; [lia | by eexists]|].
    rewrite (unpack_u32_ok (take 4 data) 0), bind_Ok
      by (rewrite ?length_take; lia).
    rewrite u32_at_take.
    case_decide; [right; split; [tauto | by eexists]|].
    destruct (decide (Z.of_nat (length data) < 8)) as [Hshort|Hlong].
    - left. split; [done|]. split; [lia|]. split; [done|].
      unfold unpack_u32 at 1, unpack_from.
      rewrite (decide_False (P := 4 < 0)) by lia.
      by rewrite decide_True by lia.
    - right. split; [lia|].
      rewrite (unpack_u32_ok data 4), bind_Ok by lia.
      case_decide; [by eexists|].
      destruct (bone_mat_loop data (le_uint (slice data 4 4))) as (b & -> & _).
      by eexists. }
  split; [|split; [|split]].
  - destruct Hcases as [(? & ? & ? & ->) | (Hno & b & ->)]; [done|].
    split; [done | tauto].
  - destruct Hcases as [(_ & _ & _ & ->) | (_ & b & ->)]; eauto.
  - intros Hin. unfold lmo_bone_mat_only. by rewrite decide_True.
  - intros Hlen. unfold parse_lmo_animations. by rewrite decide_True by lia.
Qed.

(** ** The first pass over the container files *)

Lemma parse_lmo_animations_returns (data : list byte) :
  ∃ results, parse_lmo_animations data = Ok results.
Proof.
  unfold parse_lmo_animations.
  case_decide; [by eexists|].
  rewrite (unpack_u32_ok data 0), bind_Ok by lia.
  rewrite (unpack_u32_ok data 4), bind_Ok by lia.
  case_decide; [by eexists|]. case_decide; [by eexists|].
  destruct (range_loop_ok
    (lmo_object data (anim_format (le_uint (slice data 0 4))))
    (λ _, True) (le_uint (slice data 4 4)) []) as (r & Hr & _);
    [done | | eauto].
  intros j rs Hj _.
  destruct (lmo_object_ok data (le_uint (slice data 0 4)) j rs)
    as (f & rs' & ->); [lia|]. eauto.
Qed.

Lemma any_nonempty_true {A : Type} (field : AnimInfo → list A)
    (anims : list (Z * AnimInfo)) (i : Z) (info : AnimInfo) :
  (i, info) ∈ anims → field info ≠ [] → any_nonempty field anims = true.
Proof.
  intros Hin Hne. unfold any_nonempty. apply existsb_exists.
  exists (i, info). split; [by apply list_elem_of_In|].
  cbn. by destruct (field info).
Qed.

(** A non-empty result has a table with an entry in one of the three
    channels. *)
Lemma parsed_anims_have_channel (data : list byte)
    (anims : list (Z * AnimInfo)) :
  parse_lmo_animations data = Ok anims → anims ≠ [] →
  any_nonempty texuv_sizes anims = true
  ∨ any_nonempty teximg_sizes anims = true
  ∨ any_nonempty mtlopac_sizes anims = true.
Proof.
  intros Hparse Hne. destruct anims as [|[i info] rest]; [done|].
  assert (Hin : (i, info) ∈ (i, info) :: rest) by apply list_elem_of_here.
  destruct (parse_lmo_animations_decoded _ _ _ _ Hparse Hin)
    as (v & _ & ? & ? & ? & ? & ? & ? & ? & _ & _ & _ & _ & _ & _ & _ & Hch).
  unfold has_channel_data in Hch.
  destruct (decide (texuv_sizes info = [])) as [Huv|Huv];
    [|left; by eapply any_nonempty_true].
  destruct (decide (teximg_sizes info = [])) as [Himg|Himg];
    [|right; left; by eapply any_nonempty_true].
  destruct (decide (mtlopac_sizes info = [])) as [Hop|Hop];
    [|right; right; by eapply any_nonempty_true].
  rewrite !bool_decide_eq_true_2 in Hch by done. discriminate.
Qed.

Lemma survey_file_inv (seen : list (str * list byte)) (basename : str)
    (data : list byte) (sv : Survey) :
  survey_inv seen sv →
  ∃ sv', survey_file basename data sv = Ok sv'
         ∧ survey_inv (seen ++ [(basename, data)]) sv'.
Proof.
  intros (Hscan & Hsound & Hcompl & Hcount).
  assert (Hlen : Z.of_nat (length (seen ++ [(basename, data)]))
                 = Z.of_nat (length seen) + 1)
    by (rewrite length_app; cbn; lia).
  destruct (parse_lmo_animations_returns data) as [anims Hparse].
  (* a file that stores nothing *)
  assert (Hskip : ∀ sv', lmo_anim_data sv' = lmo_anim_data sv →
    total_scanned sv' = total_scanned sv + 1 →
    total_with_anim sv' = total_with_anim sv →
    total_with_texuv sv' = total_with_texuv sv →
    total_with_teximg sv' = total_with_teximg sv →
    total_with_mtlopac sv' = total_with_mtlopac sv →
    skipped_v0 sv ≤ skipped_v0 sv' ≤ skipped_v0 sv + 1 →
    (anims = [] ∨ Z.of_nat (length data) < 8 ∨ u32_at data 0 = 0) →
    survey_inv (seen ++ [(basename, data)]) sv').
  { intros sv' Hd Hs Ha Hu Hi Hm Hv Hempty.
    unfold survey_inv. rewrite Hd, Hs, Ha, Hu, Hi, Hm, Hlen.
    split; [lia|]. split; [|split; [|lia]].
    - intros name an Hl. destruct (Hsound name an Hl) as (Hne & dt & Hin & Hp).
      split; [done|]. exists dt. split; [|done].
      apply elem_of_app. by left.
    - intros name dt an [Hin | Hin%list_elem_of_singleton]%elem_of_app Hp Hne.
      + by eapply Hcompl.
      + inversion Hin; subst. exfalso.
        destruct Hempty as [-> | [Hshort | Hver]].
        * rewrite Hparse in Hp. by inversion Hp; subst.
        * unfold parse_lmo_animations in Hp.
          rewrite decide_True in Hp by done. by inversion Hp; subst.
        * unfold parse_lmo_animations in Hp.
          case_decide; [by inversion Hp; subst|].
          rewrite (unpack_u32_ok data 0), bind_Ok in Hp by lia.
          rewrite (unpack_u32_ok data 4), bind_Ok in Hp by lia.
          rewrite decide_True in Hp by done. by inversion Hp; subst. }
  unfold survey_file. cbv zeta. rewrite length_take.
  case_decide as Hshort.
  { eexists. split; [reflexivity|]. apply Hskip; cbn; try done; lia. }
  rewrite (unpack_u32_ok (take 4 data) 0), bind_Ok
    by (rewrite ?length_take; lia).
  rewrite u32_at_take.
  case_decide as Hver.
  { eexists. split; [reflexivity|]. apply Hskip; cbn; try done; [lia|].
    right; by right. }
  rewrite Hparse, bind_Ok.
  destruct anims as [|a rest] eqn:Hanims.
  { eexists. split; [reflexivity|]. apply Hskip; cbn; try done; [lia|].
    by left. }
  rewrite <- Hanims in *. assert (Hne : anims ≠ []) by (by subst).
  replace (a :: rest) with anims by done.
  eexists. split; [reflexivity|].
  unfold survey_inv. cbn [lmo_anim_data total_scanned total_with_anim
    total_with_texuv total_with_teximg total_with_mtlopac skipped_v0].
  rewrite Hlen. split; [lia|]. split; [|split].
  - intros name an Hl. destruct (decide (basename = name)) as [->|Hnm].
    + rewrite lookup_insert_eq in Hl. inversion Hl; subst an.
      split; [done|]. exists data. split; [|done].
      apply elem_of_app. right. by apply list_elem_of_singleton.
    + rewrite lookup_insert_ne in Hl by done.
      destruct (Hsound name an Hl) as (Hne' & dt & Hin & Hp).
      split; [done|]. exists dt. split; [|done]. apply elem_of_app. by left.
  - intros name dt an Hin Hp Hne'.
    destruct (decide (basename = name)) as [->|Hnm].
    + rewrite lookup_insert_eq. by eexists.
    + rewrite lookup_insert_ne by done.
      apply elem_of_app in Hin as [Hin | Hin%list_elem_of_singleton].
      * by eapply Hcompl.
      * inversion Hin; subst. done.
  - pose proof (parsed_anims_have_channel data anims Hparse Hne) as Hch.
    assert (Hsize : Z.of_nat (size (<[basename:=anims]> (lmo_anim_data sv)))
                    ≤ Z.of_nat (size (lmo_anim_data sv)) + 1).
    { destruct (lmo_anim_data sv !! basename) as [old|] eqn:Hold.
      - rewrite <- (insert_id _ _ _ Hold) at 2.
        rewrite <- (insert_delete_eq (lmo_anim_data sv) basename old).
        rewrite <- (insert_delete_eq (lmo_anim_data sv) basename anims).
        rewrite !map_size_insert_None by apply lookup_delete_eq. lia.
      - rewrite map_size_insert_None by done. lia. }
    destruct (any_nonempty texuv_sizes anims),
      (any_nonempty teximg_sizes anims),
      (any_nonempty mtlopac_sizes anims);
      try lia; destruct Hch as [?|[?|?]]; discriminate.
Qed.

Lemma survey_files_inv (seen rest : list (str * list byte)) (sv : Survey) :
  survey_inv seen sv →
  ∃ sv', survey_files rest sv = Ok sv' ∧ survey_inv (seen ++ rest) sv'.
Proof.
  revert seen sv. induction rest as [|[basename data] rest IH];
    intros seen sv Hinv.
  - exists sv. rewrite app_nil_r. done.
  - destruct (survey_file_inv seen basename data sv Hinv) as (sv1 & Hf & Hinv1).
    destruct (IH _ _ Hinv1) as (sv' & Hrest & Hinv').
    exists sv'. cbn [survey_files]. rewrite Hf, bind_Ok.
    split; [done|]. by rewrite <- app_assoc in Hinv'.
Qed.

Lemma survey_start_inv : survey_inv [] survey_start.
Proof.
  unfold survey_inv, survey_start. cbn. split; [done|].
  split; [intros ?? Hl; by rewrite lookup_empty in Hl|].
  split; [by intros ??? ?%elem_of_nil|]. rewrite map_size_empty. lia.
Qed.

(** X13: the first pass returns on every list of files. The names it stores
    are those of the files that decode to a non-empty result, each stored
    with the non-empty result of a file of that name, and every file is
    counted as scanned. *)
Theorem survey_stores_animated_files (lmo_files : list (str * list byte)) :
  ∃ sv,
    survey_files lmo_files survey_start = Ok sv
    ∧ total_scanned sv = Z.of_nat (length lmo_files)
    ∧ (∀ name,
         is_Some (lmo_anim_data sv !! name) ↔
         ∃ data anims, (name, data) ∈ lmo_files
                       ∧ parse_lmo_animations data = Ok anims ∧ anims ≠ [])
    ∧ (∀ name anims,
         lmo_anim_data sv !! name = Some anims →
         anims ≠ []
         ∧ ∃ data, (name, data) ∈ lmo_files
                   ∧ parse_lmo_animations data = Ok anims).
Proof.
  destruct (survey_files_inv [] lmo_files survey_start survey_start_inv)
    as (sv & Hrun & Hscan & Hsound & Hcompl & _).
  exists sv. cbn [app] in *. split; [done|]. split; [done|].
  split; [|done]. intros name. split.
  - intros [anims Hl]. destruct (Hsound _ _ Hl) as (Hne & data & Hin & Hp).
    by exists data, anims.
  - intros (data & anims & Hin & Hp & Hne). by eapply Hcompl.
Qed.

(** X14: the counters of the first pass stay consistent: a file counted as
    animated is counted for one at least of the three channels and at most
    once for each; animated and skipped files together are no more than
    the files scanned; and the dictionary has no more names than files
    were counted as animated. *)
Theorem survey_counters_consistent (lmo_files : list (str * list byte))
    (sv : Survey) :
  survey_files lmo_files survey_start = Ok sv →
  0 ≤ total_with_texuv sv ≤ total_with_anim sv
  ∧ 0 ≤ total_with_teximg sv ≤ total_with_anim sv
  ∧ 0 ≤ total_with_mtlopac sv ≤ total_with_anim sv
  ∧ total_with_anim sv
    ≤ total_with_texuv sv + total_with_teximg sv + total_with_mtlopac sv
  ∧ total_with_anim sv + skipped_v0 sv ≤ Z.of_nat (length lmo_files)
  ∧ Z.of_nat (size (lmo_anim_data sv)) ≤ total_with_anim sv.
Proof.
  intros Hrun.
  destruct (survey_files_inv [] lmo_files survey_start survey_start_inv)
    as (sv' & Hrun' & Hscan & _ & _ & Hcount).
  rewrite Hrun in Hrun'. inversion Hrun'; subst sv'. cbn [app] in *. lia.
Qed.

Lemma survey_counters_consistent_witness :
  ∃ sv,
    survey_files [([97%N], one_object_file 636 648); ([98%N], zeros 8)]
      survey_start = Ok sv
    ∧ total_with_anim sv
      ≤ total_with_texuv sv + total_with_teximg sv + total_with_mtlopac sv
    ∧ total_with_anim sv + skipped_v0 sv ≤ 2.
Proof.
  destruct (survey_files
              [([97%N], one_object_file 636 648); ([98%N], zeros 8)]
              survey_start) as [sv|e] eqn:Hrun;
    [|vm_compute in Hrun; discriminate].
  exists sv. split; [done|].
  destruct (survey_counters_consistent _ sv Hrun)
    as (_ & _ & _ & Hch & Hall & _).
  split; [exact Hch | exact Hall].
Defined.

(** ** The cross-reference *)

Lemma add_at_lookup (d : gmap str (gset Z)) (key name : str) (x y : Z) :
  y ∈ default ∅ (add_at d key x !! name)
  ↔ y ∈ default ∅ (d !! name) ∨ (name = key ∧ y = x).
Proof.
  unfold add_at. destruct (decide (key = name)) as [->|Hne].
  - rewrite lookup_insert_eq. cbn. rewrite elem_of_union, elem_of_singleton.
    split; [intros [->|?]; [by right | by left]
           | intros [?|[_ ->]]; [by right | by left]].
  - rewrite lookup_insert_ne by done.
    split; [by left | intros [?|[-> _]]; done].
Qed.

Lemma add_at_key (d : gmap str (gset Z)) (key name : str) (x : Z) :
  is_Some (add_at d key x !! name) ↔ is_Some (d !! name) ∨ name = key.
Proof.
  unfold add_at. destruct (decide (key = name)) as [->|Hne].
  - rewrite lookup_insert_eq. split; [by right | by eexists].
  - rewrite lookup_insert_ne by done.
    split; [by left | intros [? | ->]; done].
Qed.

Lemma add_at_no_empty (d : gmap str (gset Z)) (key : str) (x : Z) :
  no_empty_set d → no_empty_set (add_at d key x).
Proof.
  intros Hd name ids. unfold add_at.
  destruct (decide (key = name)) as [->|Hne].
  - rewrite lookup_insert_eq. intros [= <-]. set_solver.
  - rewrite lookup_insert_ne by done. apply Hd.
Qed.

Lemma reverse_fold (items : list (Z * str)) (d : gmap str (gset Z)) :
  let d' := foldl (λ d item, add_at d item.2 item.1) d items in
  (∀ name id, id ∈ default ∅ (d' !! name)
              ↔ id ∈ default ∅ (d !! name) ∨ (id, name) ∈ items)
  ∧ (∀ name, is_Some (d' !! name)
             ↔ is_Some (d !! name) ∨ ∃ id, (id, name) ∈ items)
  ∧ (no_empty_set d → no_empty_set d').
Proof.
  revert d. induction items as [|[id0 name0] items IH]; intros d; cbn.
  - split; [|split; [|done]].
    + intros name id. split; [by left|]. intros [?|?%elem_of_nil]; done.
    + intros name. split; [by left|].
      intros [?|[id ?%elem_of_nil]]; done.
  - destruct (IH (add_at d name0 id0)) as (Hin & Hkey & Hne).
    split; [|split].
    + intros name id. rewrite Hin, add_at_lookup, elem_of_cons.
      split; [intros [[Ha | [-> ->]] | Hb] | intros [Ha | [[= -> ->] | Hb]]]; eauto.
    + intros name. rewrite Hkey, add_at_key. split.
      * intros [[Hs | ->] | [id Hid]]; eauto.
        -- right. exists id0. apply list_elem_of_here.
        -- right. exists id. by apply list_elem_of_further.
      * intros [Ha | [id [[= -> ->] | Hb]%elem_of_cons]]; eauto.
    + intros Hd. by apply Hne, add_at_no_empty.
Qed.

Lemma reverse_catalog_lookup (obj_id_to_lmo : gmap Z str)
    (lmo_name : str) (obj_id : Z) :
  obj_id ∈ default ∅ (reverse_catalog obj_id_to_lmo !! lmo_name)
  ↔ obj_id_to_lmo !! obj_id = Some lmo_name.
Proof.
  unfold reverse_catalog.
  destruct (reverse_fold (map_to_list obj_id_to_lmo) ∅) as (Hin & _).
  rewrite Hin, lookup_empty, elem_of_map_to_list. cbn.
  split; [intros [?%not_elem_of_empty|?]; done | by right].
Qed.

(** X15: the reverse map sends a file name to the set of the ids that the
    catalog maps to it: an id is in the set of a name exactly when the
    catalog maps the id to that name, and a name is a key exactly when the
    catalog maps some id to it. *)
Theorem reverse_catalog_spec (obj_id_to_lmo : gmap Z str) :
  (∀ lmo_name obj_id,
     obj_id ∈ default ∅ (reverse_catalog obj_id_to_lmo !! lmo_name)
     ↔ obj_id_to_lmo !! obj_id = Some lmo_name)
  ∧ (∀ lmo_name,
       is_Some (reverse_catalog obj_id_to_lmo !! lmo_name)
       ↔ ∃ obj_id, obj_id_to_lmo !! obj_id = Some lmo_name).
Proof.
  unfold reverse_catalog.
  destruct (reverse_fold (map_to_list obj_id_to_lmo) ∅) as (Hin & Hkey & _).
  split.
  - intros name id. rewrite Hin, lookup_empty, elem_of_map_to_list. cbn.
    split; [intros [?%not_elem_of_empty|?]; done | by right].
  - intros name. rewrite Hkey, lookup_empty. split.
    + intros [[? Hnone]|[id Hid%elem_of_map_to_list]]; [done | eauto].
    + intros [id Hid]. right. exists id. by apply elem_of_map_to_list.
Qed.

Lemma animated_inner (lmo_name : str) (ids : list Z)
    (st : gset Z * gmap Z str) :
  let st' := foldl (λ st' obj_id,
                      ({[obj_id]} ∪ st'.1, <[obj_id := lmo_name]> st'.2))
               st ids in
  (∀ id, id ∈ st'.1 ↔ id ∈ st.1 ∨ id ∈ ids)
  ∧ (∀ id name, st'.2 !! id = Some name
                ↔ (id ∈ ids ∧ name = lmo_name)
                  ∨ ((id ∉ ids) ∧ st.2 !! id = Some name)).
Proof.
  revert st. induction ids as [|id0 ids IH]; intros st; cbn.
  - split; [intros id; rewrite elem_of_nil; tauto|].
    intros id name. rewrite elem_of_nil. tauto.
  - destruct (IH ({[id0]} ∪ st.1, <[id0:=lmo_name]> st.2)) as [Hids Hback].
    cbn [fst snd] in *. split.
    + intros id. rewrite Hids, elem_of_cons, elem_of_union, elem_of_singleton.
      tauto.
    + intros id name. rewrite Hback, elem_of_cons.
      destruct (decide (id = id0)) as [->|Hne].
      * rewrite lookup_insert_eq. split.
        -- intros [[? ->]|[? [= <-]]]; left; eauto.
        -- intros [[_ ->]|[Hnot _]]; [|by destruct Hnot; left].
           destruct (decide (id0 ∈ ids)); [by left | by right].
      * rewrite lookup_insert_ne by done. split.
        -- intros [[? ->]|[? ?]]; [left; eauto|right]. split; [|done].
           intros [?|?]; done.
        -- intros [[[?|?] ->]|[Hnot ?]]; [done | by left |].
           right. split; [|done]. intros ?. apply Hnot. by right.
Qed.

Lemma animated_outer (names : list str) (lmo_to_obj_ids : gmap str (gset Z))
    (st : gset Z * gmap Z str) :
  (∀ id n1 n2, id ∈ default ∅ (lmo_to_obj_ids !! n1) →
               id ∈ default ∅ (lmo_to_obj_ids !! n2) → n1 = n2) →
  let st' := foldl (λ st lmo_name,
                      foldl (λ st' obj_id,
                               ({[obj_id]} ∪ st'.1,
                                <[obj_id := lmo_name]> st'.2))
                        st (elements (default ∅
                                        (lmo_to_obj_ids !! lmo_name))))
               st names in
  (∀ id, id ∈ st'.1
         ↔ id ∈ st.1
           ∨ ∃ name, name ∈ names
                     ∧ id ∈ default ∅ (lmo_to_obj_ids !! name))
  ∧ (∀ id name,
       (∀ name', st.2 !! id = Some name' →
                 id ∈ default ∅ (lmo_to_obj_ids !! name')) →
       st'.2 !! id = Some name
       ↔ st.2 !! id = Some name
         ∨ (name ∈ names ∧ id ∈ default ∅ (lmo_to_obj_ids !! name))).
Proof.
  intros Hfun. revert st. induction names as [|n names IH]; intros st; cbn.
  - split; [intros id; split; [by left|]; intros [?|(? & ?%elem_of_nil & _)];
            done|].
    intros id name _. split; [by left|].
    intros [?|[?%elem_of_nil _]]; done.
  - set (st1 := foldl _ st (elements _)).
    destruct (animated_inner n
                (elements (default ∅ (lmo_to_obj_ids !! n))) st)
      as [Hids1 Hback1]. fold st1 in Hids1, Hback1.
    destruct (IH st1) as [Hids Hback]. split.
    + intros id. rewrite Hids, Hids1, elem_of_elements. split.
      * intros [[?|?]|(name & ? & ?)]; eauto.
        -- right. exists n. split; [apply list_elem_of_here | done].
        -- right. exists name. split; [by apply list_elem_of_further|done].
      * intros [?|(name & [->|?]%elem_of_cons & ?)]; eauto.
    + intros id name Hsound.
      rewrite Hback.
      * rewrite Hback1, elem_of_elements, elem_of_cons. split.
        -- intros [[[? ->]|[? ?]]|[? ?]]; eauto.
        -- intros [Hold|[[->|?] Hin]]; eauto.
           destruct (decide (id ∈ default ∅ (lmo_to_obj_ids !! n)))
             as [Hn|Hn]; [|by left; right].
           left; left. split; [done|]. apply (Hfun id); [|done].
           by apply Hsound.
      * intros name'. rewrite Hback1, elem_of_elements.
        intros [[? ->]|[_ ?]]; [done | by apply Hsound].
Qed.

Lemma animated_objects_lemma {V : Type} (obj_id_to_lmo : gmap Z str)
    (lmo_anim_data : gmap str V) :
  let '(animated_obj_ids, obj_id_to_anim_lmo) :=
    animated_objects lmo_anim_data (reverse_catalog obj_id_to_lmo) in
  (∀ obj_id,
     obj_id ∈ animated_obj_ids
     ↔ ∃ lmo_name, obj_id_to_lmo !! obj_id = Some lmo_name
                   ∧ is_Some (lmo_anim_data !! lmo_name))
  ∧ (∀ obj_id lmo_name,
       obj_id_to_anim_lmo !! obj_id = Some lmo_name
       ↔ obj_id_to_lmo !! obj_id = Some lmo_name
         ∧ is_Some (lmo_anim_data !! lmo_name)).
Proof.
  pose proof (reverse_catalog_lookup obj_id_to_lmo) as Hrev.
  unfold animated_objects.
  destruct (animated_outer (map_to_list lmo_anim_data).*1
              (reverse_catalog obj_id_to_lmo) (∅, ∅)) as [Hids Hback].
  { intros id n1 n2. rewrite !Hrev. congruence. }
  destruct (foldl _ (∅, ∅) _) as [ids back]. cbn [fst snd] in *.
  assert (Hkeys : ∀ name, name ∈ (map_to_list lmo_anim_data).*1
                          ↔ is_Some (lmo_anim_data !! name)).
  { intros name. rewrite list_elem_of_fmap. split.
    - intros ([n v] & -> & Hin%elem_of_map_to_list). by eexists.
    - intros [v Hv]. exists (name, v). split; [done|].
      by apply elem_of_map_to_list. }
  split.
  - intros id. rewrite Hids. setoid_rewrite Hkeys. setoid_rewrite Hrev.
    split; [intros [?%not_elem_of_empty|(n & ? & ?)] | intros (n & ? & ?)];
      [done | eauto | eauto].
  - intros id name. rewrite Hback.
    + rewrite lookup_empty, Hkeys, Hrev.
      split; [intros [?|[? ?]]; done | intros [? ?]; by right].
    + intros name'. by rewrite lookup_empty.
Qed.

(** X16: an id is animated exactly when the catalog maps it to the name of
    a container file that has animation data, and the dictionary from
    animated ids back to file names is the catalog restricted to those
    ids. *)
Theorem animated_objects_spec {V : Type} (obj_id_to_lmo : gmap Z str)
    (lmo_anim_data : gmap str V) (obj_id : Z) :
  let animated :=
    animated_objects lmo_anim_data (reverse_catalog obj_id_to_lmo) in
  (obj_id ∈ animated.1
   ↔ ∃ lmo_name, obj_id_to_lmo !! obj_id = Some lmo_name
                 ∧ is_Some (lmo_anim_data !! lmo_name))
  ∧ (∀ lmo_name,
       animated.2 !! obj_id = Some lmo_name
       ↔ obj_id_to_lmo !! obj_id = Some lmo_name
         ∧ is_Some (lmo_anim_data !! lmo_name)).
Proof.
  intros animated. subst animated.
  pose proof (animated_objects_lemma obj_id_to_lmo lmo_anim_data) as Hspec.
  destruct (animated_objects lmo_anim_data (reverse_catalog obj_id_to_lmo))
    as [ids back].
  destruct Hspec as [Hids Hback]. cbn [fst snd]. split; [apply Hids|].
  intros lmo_name. apply Hback.
Qed.

(** ** The pass over the map files *)

Lemma parse_obj_file_returns (data : list byte) :
  ∃ placements, parse_obj_file data = Ok placements ∧ NoDup placements.
Proof.
  destruct (obj_placements_spec data) as (st & Hst & _).
  exists (elements st). unfold parse_obj_file. rewrite Hst, bind_Ok.
  split; [done | apply NoDup_elements].
Qed.

Lemma survey_map_animated (animated_obj_ids : gset Z) (map_name : str)
    (placements : list (Z * Z)) (d : gmap str (gset Z)) :
  let d' := foldl (λ d p, if decide (p.1 = 0 ∧ p.2 ∈ animated_obj_ids)
                          then add_at d map_name p.2 else d)
              d placements in
  (∀ name id,
     id ∈ default ∅ (d' !! name)
     ↔ id ∈ default ∅ (d !! name)
       ∨ (name = map_name ∧ (0, id) ∈ placements ∧ id ∈ animated_obj_ids))
  ∧ (∀ name,
       is_Some (d' !! name)
       ↔ is_Some (d !! name)
         ∨ (name = map_name
            ∧ ∃ id, (0, id) ∈ placements ∧ id ∈ animated_obj_ids)).
Proof.
  revert d. induction placements as [|[t oid] placements IH]; intros d; cbn.
  - split.
    + intros name id. split; [by left|].
      intros [?|(_ & ?%elem_of_nil & _)]; done.
    + intros name. split; [by left|].
      intros [?|(_ & id & ?%elem_of_nil & _)]; done.
  - case_decide as Hkeep; cbn [fst snd] in Hkeep.
    + destruct Hkeep as [-> Hanim].
      destruct (IH (add_at d map_name oid)) as [Hin Hkey]. split.
      * intros name id. rewrite Hin, add_at_lookup, elem_of_cons. split.
        -- intros [[?|[-> ->]]|(-> & ? & ?)]; eauto 6.
        -- intros [?|(-> & [[= ->]|?] & ?)]; eauto 6.
      * intros name. rewrite Hkey, add_at_key. split.
        -- intros [[? | ->] | (-> & id & ? & ?)]; eauto.
           ++ right. split; [done|]. exists oid.
              split; [apply list_elem_of_here | done].
           ++ right. split; [done|]. exists id.
              split; [by apply list_elem_of_further | done].
        -- intros [?|(-> & id & [[= ->]|?]%elem_of_cons & ?)]; eauto 6.
    + destruct (IH d) as [Hin Hkey]. split.
      * intros name id. rewrite Hin, elem_of_cons. split.
        -- intros [Hold | (-> & Hpl & Han)]; [by left|]. right. eauto.
        -- intros [Hold | (-> & [[= <- <-] | Hpl] & Han)]; [by left | |].
           ++ exfalso. apply Hkeep. by split.
           ++ right. eauto.
      * intros name. rewrite Hkey. split.
        -- intros [Hold | (-> & id & Hpl & Han)]; [by left|].
           right. split; [done|]. exists id.
           split; [by apply list_elem_of_further | done].
        -- intros [Hold | (-> & id & [[= <- <-] | Hpl]%elem_of_cons & Han)];
             [by left | |].
           ++ exfalso. apply Hkeep. by split.
           ++ right. eauto.
Qed.

(** Kind-0 placements without repetition: one at most for each id from 1
    to 16383. *)
Lemma model_placements_bound (data : list byte) (placements : list (Z * Z)) :
  parse_obj_file data = Ok placements →
  Z.of_nat (length (filter (λ p, p.1 = 0) placements)) ≤ 16383.
Proof.
  intros Hparse.
  destruct (parse_obj_file_returns data) as (l & Hl & Hnd).
  rewrite Hparse in Hl. inversion Hl; subst l.
  assert (Hsub : filter (λ p, p.1 = 0) placements
                 ⊆+ (λ id, (0, id)) <$> seqZ 1 16383).
  { apply NoDup_submseteq; [by apply NoDup_filter|].
    intros [t id] [Ht Hin]%list_elem_of_filter. cbn in Ht. subst t.
    unfold parse_obj_file in Hparse.
    destruct (obj_placements_spec data) as (st & Hst & Hspec).
    rewrite Hst, bind_Ok in Hparse. inversion Hparse; subst placements.
    apply elem_of_elements, Hspec in Hin as (_ & s & j & Hplaced).
    destruct Hplaced as (_ & _ & _ & _ & _ & Hdec).
    apply decode_placement_range in Hdec as [_ Hid].
    apply list_elem_of_fmap. exists id. split; [done|].
    apply elem_of_seqZ. lia. }
  apply submseteq_length in Hsub.
  rewrite length_fmap, length_seqZ in Hsub. lia.
Qed.

Lemma survey_maps_spec (animated_obj_ids : gset Z)
    (obj_files : list (str * list byte))
    (st : gmap str (gset Z) * gmap str Z) :
  ∃ st',
    survey_maps animated_obj_ids obj_files st = Ok st'
    ∧ (∀ name id,
         id ∈ default ∅ (st'.1 !! name)
         ↔ id ∈ default ∅ (st.1 !! name)
           ∨ ∃ data placements,
               (name, data) ∈ obj_files
               ∧ parse_obj_file data = Ok placements
               ∧ (0, id) ∈ placements ∧ id ∈ animated_obj_ids)
    ∧ (∀ name,
         is_Some (st'.1 !! name)
         ↔ is_Some (st.1 !! name)
           ∨ ∃ data placements id,
               (name, data) ∈ obj_files
               ∧ parse_obj_file data = Ok placements
               ∧ (0, id) ∈ placements ∧ id ∈ animated_obj_ids)
    ∧ (∀ name n,
         st'.2 !! name = Some n →
         st.2 !! name = Some n
         ∨ ∃ data placements,
             (name, data) ∈ obj_files
             ∧ parse_obj_file data = Ok placements
             ∧ n = Z.of_nat (length (filter (λ p, p.1 = 0) placements)))
    ∧ (∀ name,
         is_Some (st'.2 !! name)
         ↔ is_Some (st.2 !! name) ∨ ∃ data, (name, data) ∈ obj_files).
Proof.
  revert st. induction obj_files as [|[map_name data] rest IH]; intros st.
  - exists st. split; [done|]. split; [|split; [|split]].
    + intros name id. split; [by left|].
      intros [?|(? & ? & ?%elem_of_nil & _)]; done.
    + intros name. split; [by left|].
      intros [?|(? & ? & ? & ?%elem_of_nil & _)]; done.
    + intros name n ?. by left.
    + intros name. split; [by left|]. intros [?|(? & ?%elem_of_nil)]; done.
  - destruct (parse_obj_file_returns data) as (placements & Hparse & _).
    cbn [survey_maps]. rewrite Hparse, bind_Ok.
    destruct (IH (survey_map animated_obj_ids map_name placements st))
      as (st' & Hrun & Hin & Hkey & Hcnt & Hcntkey).
    exists st'. split; [done|].
    destruct (survey_map_animated animated_obj_ids map_name placements st.1)
      as [Hin1 Hkey1].
    unfold survey_map in Hin, Hkey, Hcnt, Hcntkey. cbn [fst snd] in *.
    split; [|split; [|split]].
    + intros name id. rewrite Hin, Hin1. split.
      * intros [[?|(-> & ? & ?)]|(dt & pl & ? & ? & ? & ?)]; eauto.
        -- right. exists data, placements.
           split; [apply list_elem_of_here | done].
        -- right. exists dt, pl. split; [by apply list_elem_of_further|done].
      * intros [?|(dt & pl & [[= -> ->]|?]%elem_of_cons & Hp & ? & ?)];
          eauto 8.
        rewrite Hparse in Hp. inversion Hp; subst pl. left; right. done.
    + intros name. rewrite Hkey, Hkey1. split.
      * intros [[?|(-> & id & ? & ?)]|(dt & pl & id & ? & ? & ? & ?)]; eauto.
        -- right. exists data, placements, id.
           split; [apply list_elem_of_here | done].
        -- right. exists dt, pl, id.
           split; [by apply list_elem_of_further | done].
      * intros [?|(dt & pl & id & [[= -> ->]|?]%elem_of_cons & Hp & ? & ?)];
          eauto 10.
        rewrite Hparse in Hp. inversion Hp; subst pl. left; right. eauto.
    + intros name n Hn. destruct (Hcnt name n Hn)
        as [Hold|(dt & pl & ? & ? & ?)].
      * destruct (decide (map_name = name)) as [->|Hne].
        -- rewrite lookup_insert_eq in Hold. inversion Hold; subst n.
           right. exists data, placements.
           split; [apply list_elem_of_here | done].
        -- rewrite lookup_insert_ne in Hold by done. by left.
      * right. exists dt, pl. split; [by apply list_elem_of_further | done].
    + intros name. rewrite Hcntkey.
      destruct (decide (map_name = name)) as [->|Hne].
      * rewrite lookup_insert_eq. split.
        -- intros _. right. exists data. apply list_elem_of_here.
        -- intros _. left. by eexists.
      * rewrite lookup_insert_ne by done. split.
        -- intros [?|[dt ?]]; [by left|]. right. exists dt.
           by apply list_elem_of_further.
        -- intros [?|[dt [[= ? ?]|?]%elem_of_cons]]; [by left | done |].
           right. by exists dt.
Qed.

(** X17: after the pass over the map files, an id is in the animated set of
    a map exactly when a file of that map places it with kind 0 and the id
    is animated; a placement of kind 1 never puts an id there, and a map
    is a key only when it has such an id. *)
Theorem map_to_animated_spec (animated_obj_ids : gset Z)
    (obj_files : list (str * list byte)) :
  ∃ st,
    survey_maps animated_obj_ids obj_files (∅, ∅) = Ok st
    ∧ (∀ map_name obj_id,
         obj_id ∈ default ∅ (st.1 !! map_name)
         ↔ ∃ data placements,
             (map_name, data) ∈ obj_files
             ∧ parse_obj_file data = Ok placements
             ∧ (0, obj_id) ∈ placements ∧ obj_id ∈ animated_obj_ids)
    ∧ (∀ map_name,
         is_Some (st.1 !! map_name)
         ↔ ∃ obj_id, obj_id ∈ default ∅ (st.1 !! map_name)).
Proof.
  destruct (survey_maps_spec animated_obj_ids obj_files (∅, ∅))
    as (st & Hrun & Hin & Hkey & _).
  exists st. split; [done|]. cbn [fst snd] in *.
  assert (Hin' : ∀ map_name obj_id,
    obj_id ∈ default ∅ (st.1 !! map_name)
    ↔ ∃ data placements,
        (map_name, data) ∈ obj_files
        ∧ parse_obj_file data = Ok placements
        ∧ (0, obj_id) ∈ placements ∧ obj_id ∈ animated_obj_ids).
  { intros name id. rewrite Hin, lookup_empty. cbn.
    split; [intros [?%not_elem_of_empty|?]; done | by right]. }
  split; [done|].
  intros name. rewrite Hkey, lookup_empty. split.
  - intros [[? ?]|(dt & pl & id & H)]; [done|].
    exists id. apply Hin'. by exists dt, pl.
  - intros [id (dt & pl & H)%Hin']. right. by exists dt, pl, id.
Qed.

(** X18: every map file gets a count of model placements, whether it has an
    animated building or not: the number of distinct kind-0 placements of
    a file of that name, 16383 at most. *)
Theorem map_model_counts_spec (animated_obj_ids : gset Z)
    (obj_files : list (str * list byte))
    (st : gmap str (gset Z) * gmap str Z) :
  survey_maps animated_obj_ids obj_files (∅, ∅) = Ok st →
  (∀ map_name,
     is_Some (st.2 !! map_name) ↔ ∃ data, (map_name, data) ∈ obj_files)
  ∧ (∀ map_name n,
       st.2 !! map_name = Some n →
       0 ≤ n ≤ 16383
       ∧ ∃ data placements,
           (map_name, data) ∈ obj_files
           ∧ parse_obj_file data = Ok placements
           ∧ n = Z.of_nat (length (filter (λ p, p.1 = 0) placements))).
Proof.
  intros Hrun.
  destruct (survey_maps_spec animated_obj_ids obj_files (∅, ∅))
    as (st' & Hrun' & _ & _ & Hcnt & Hcntkey).
  rewrite Hrun in Hrun'. inversion Hrun'; subst st'. cbn [fst snd] in *.
  split.
  - intros name. rewrite Hcntkey, lookup_empty.
    split; [intros [[? ?]|?]; done | by right].
  - intros name n Hn. destruct (Hcnt name n Hn) as [Hold|(dt & pl & ? & Hp & ->)].
    { by rewrite lookup_empty in Hold. }
    pose proof (model_placements_bound dt pl Hp).
    split; [lia|]. by exists dt, pl.
Qed.

Lemma map_model_counts_spec_witness :
  ∃ st,
    survey_maps {[42]} [([109%N], two_section_file)] (∅, ∅) = Ok st
    ∧ (∀ map_name,
         is_Some (st.2 !! map_name)
         ↔ ∃ data, (map_name, data) ∈ [([109%N], two_section_file)]).
Proof.
  destruct (survey_maps {[42]} [([109%N], two_section_file)] (∅, ∅))
    as [st|e] eqn:Hrun; [|vm_compute in Hrun; discriminate].
  exists st. split; [done|].
  apply (map_model_counts_spec {[42]} [([109%N], two_section_file)] st Hrun).
Defined.

(** ** The channel usage tables *)

Section Usage.
Context `{Countable K}.
Variable keys_of : AnimInfo → list K.

Lemma seen_inner (keys : list K) (seen : gset K) (key : K) :
  key ∈ foldl (λ seen key, {[key]} ∪ seen) seen keys
  ↔ key ∈ seen ∨ key ∈ keys.
Proof using Type.
  revert seen. induction keys as [|k keys IH]; intros seen; cbn.
  - rewrite elem_of_nil. tauto.
  - rewrite IH, elem_of_union, elem_of_singleton, elem_of_cons. tauto.
Qed.

Lemma seen_outer (anims : list (Z * AnimInfo)) (seen : gset K) (key : K) :
  key ∈ foldl (λ seen p,
                 foldl (λ seen key, {[key]} ∪ seen) seen (keys_of p.2))
          seen anims
  ↔ key ∈ seen ∨ ∃ i info, (i, info) ∈ anims ∧ key ∈ keys_of info.
Proof using Type.
  revert seen. induction anims as [|[i0 info0] anims IH]; intros seen; cbn.
  - split; [by left|]. intros [?|(? & ? & ?%elem_of_nil & _)]; done.
  - rewrite IH, seen_inner. split.
    + intros [[Hs | Hk] | (i & info & Hin & Hk)]; [by left | |].
      * right. exists i0, info0. split; [apply list_elem_of_here | done].
      * right. exists i, info. split; [by apply list_elem_of_further|done].
    + intros [Hs | (i & info & [[= -> ->] | Hin]%elem_of_cons & Hk)].
      * by left; left.
      * by left; right.
      * right. by exists i, info.
Qed.

Lemma elem_of_seen_keys (anims : list (Z * AnimInfo)) (key : K) :
  key ∈ seen_keys keys_of anims
  ↔ ∃ i info, (i, info) ∈ anims ∧ key ∈ keys_of info.
Proof using Type.
  unfold seen_keys. rewrite seen_outer.
  split; [intros [?%not_elem_of_empty|?]; done | by right].
Qed.

Lemma count_up_fold (keys : list K) (usage : gmap K Z) (key : K) :
  NoDup keys →
  default 0 (foldl count_up usage keys !! key)
  = default 0 (usage !! key) + (if decide (key ∈ keys) then 1 else 0).
Proof using Type.
  intros Hnd. revert usage.
  induction Hnd as [|k keys Hk Hnd IH]; intros usage; cbn [foldl].
  - rewrite decide_False by (by intros ?%elem_of_nil). lia.
  - rewrite IH. unfold count_up.
    destruct (decide (key = k)) as [->|Hne].
    + rewrite lookup_insert_eq. cbn.
      rewrite (decide_False (P := k ∈ keys)) by done.
      rewrite decide_True by apply list_elem_of_here. lia.
    + rewrite lookup_insert_ne by done.
      destruct (decide (key ∈ keys)) as [Hin|Hin].
      * rewrite decide_True by (by apply list_elem_of_further). done.
      * rewrite decide_False; [done|].
        intros [?|?]%elem_of_cons; done.
Qed.

Lemma count_up_fold_key (keys : list K) (usage : gmap K Z) (key : K) :
  is_Some (foldl count_up usage keys !! key)
  ↔ is_Some (usage !! key) ∨ key ∈ keys.
Proof using Type.
  revert usage. induction keys as [|k keys IH]; intros usage; cbn [foldl].
  - rewrite elem_of_nil. tauto.
  - rewrite IH, elem_of_cons. unfold count_up.
    destruct (decide (key = k)) as [->|Hne].
    + rewrite lookup_insert_eq. split; [by right; left | by left; eexists].
    + rewrite lookup_insert_ne by done. tauto.
Qed.

Lemma usage_fold (items : list (str * list (Z * AnimInfo)))
    (usage : gmap K Z) (key : K) :
  let usage' :=
    foldl (λ usage item,
             foldl count_up usage (elements (seen_keys keys_of item.2)))
      usage items in
  default 0 (usage' !! key)
  = default 0 (usage !! key)
    + Z.of_nat (length (filter (λ item, key ∈ seen_keys keys_of item.2)
                          items))
  ∧ (is_Some (usage' !! key)
     ↔ is_Some (usage !! key)
       ∨ ∃ item, item ∈ items ∧ key ∈ seen_keys keys_of item.2).
Proof using Type.
  revert usage. induction items as [|item items IH]; intros usage;
    cbn [foldl].
  - cbn. split; [lia|]. split; [by left|].
    intros [?|(? & ?%elem_of_nil & _)]; done.
  - destruct (IH (foldl count_up usage
                    (elements (seen_keys keys_of item.2)))) as [Hcnt Hkey].
    split.
    + rewrite Hcnt, count_up_fold by apply NoDup_elements.
      rewrite filter_cons.
      destruct (decide (key ∈ seen_keys keys_of item.2)) as [Hin|Hin].
      * rewrite decide_True by (by apply elem_of_elements).
        cbn [length]. lia.
      * rewrite decide_False by (by rewrite elem_of_elements). lia.
    + rewrite Hkey, count_up_fold_key, elem_of_elements. split.
      * intros [[Hu | Hs] | (it & Hin & Hs)]; [by left | |].
        -- right. exists item. split; [apply list_elem_of_here | done].
        -- right. exists it. split; [by apply list_elem_of_further | done].
      * intros [Hu | (it & [-> | Hin]%elem_of_cons & Hs)].
        -- by left; left.
        -- by left; right.
        -- right. by exists it.
Qed.

(** X19: a usage table counts files, not objects: the count of a key is the
    number of animated files in which some table shows the key, each file
    counted once however many of its objects show it; and only keys shown
    by some file are in the table, with a positive count. *)
Theorem channel_usage_spec
    (lmo_anim_data : gmap str (list (Z * AnimInfo))) (key : K) :
  default 0 (channel_usage keys_of lmo_anim_data !! key)
  = Z.of_nat (length (filter (λ item, key ∈ seen_keys keys_of item.2)
                        (map_to_list lmo_anim_data)))
  ∧ (is_Some (channel_usage keys_of lmo_anim_data !! key)
     ↔ ∃ basename anims i info,
         lmo_anim_data !! basename = Some anims
         ∧ (i, info) ∈ anims ∧ key ∈ keys_of info)
  ∧ (∀ n, channel_usage keys_of lmo_anim_data !! key = Some n →
          0 < n ≤ Z.of_nat (size lmo_anim_data)).
Proof using Type.
  unfold channel_usage.
  destruct (usage_fold (map_to_list lmo_anim_data) ∅ key) as [Hcnt Hkey].
  cbv zeta in Hcnt, Hkey. rewrite lookup_empty in Hcnt, Hkey. cbn in Hcnt.
  assert (Hsome : is_Some
      (foldl (λ usage item,
                foldl count_up usage (elements (seen_keys keys_of item.2)))
         ∅ (map_to_list lmo_anim_data) !! key)
    ↔ ∃ basename anims i info,
        lmo_anim_data !! basename = Some anims
        ∧ (i, info) ∈ anims ∧ key ∈ keys_of info).
  { rewrite Hkey. split.
    - intros [[? ?] | ([name anims] & Hin%elem_of_map_to_list & Hs)]; [done|].
      apply elem_of_seen_keys in Hs as (i & info & ? & ?).
      by exists name, anims, i, info.
    - intros (name & anims & i & info & Hl & Hin & Hk). right.
      exists (name, anims). split; [by apply elem_of_map_to_list|].
      apply elem_of_seen_keys. by exists i, info. }
  split; [done|]. split; [done|].
  intros n Hn. rewrite Hn in Hcnt. cbn in Hcnt. subst n. split.
  - assert (Hex : is_Some
      (foldl (λ usage item,
                foldl count_up usage (elements (seen_keys keys_of item.2)))
         ∅ (map_to_list lmo_anim_data) !! key)) by (by eexists).
    apply Hkey in Hex as [[? ?] | (item & Hin & Hs)]; [done|].
    assert (Hitem : item ∈ filter (λ item, key ∈ seen_keys keys_of item.2)
                             (map_to_list lmo_anim_data))
      by (by apply list_elem_of_filter).
    destruct (filter _ _); [by apply elem_of_nil in Hitem | cbn; lia].
  - rewrite <- (length_map_to_list lmo_anim_data).
    apply inj_le, length_filter.
Qed.
End Usage.

(** ** From the files to the animated buildings of a map *)

Section MainProps.
Variable decode_utf8_replace : list byte → str.
Variables strip lower : str → str.

Local Abbreviation parse_catalog :=
  (parse_sceneobjinfo_bin decode_utf8_replace strip lower).
Local Abbreviation buildings :=
  (animated_buildings decode_utf8_replace strip lower).

Lemma animated_buildings_cases (catalog : list byte)
    (lmo_files obj_files : list (str * list byte)) :
  (∃ e, parse_catalog catalog = Raise e
        ∧ buildings catalog lmo_files obj_files = Raise e)
  ∨ (∃ obj_id_to_lmo result,
       parse_catalog catalog = Ok obj_id_to_lmo
       ∧ buildings catalog lmo_files obj_files = Ok result
       ∧ ∀ map_name obj_id,
           obj_id ∈ default ∅ (result !! map_name)
           ↔ ∃ lmo_name lmo_data anims map_data placements,
               obj_id_to_lmo !! obj_id = Some lmo_name
               ∧ (lmo_name, lmo_data) ∈ lmo_files
               ∧ parse_lmo_animations lmo_data = Ok anims ∧ anims ≠ []
               ∧ (map_name, map_data) ∈ obj_files
               ∧ parse_obj_file map_data = Ok placements
               ∧ (0, obj_id) ∈ placements).
Proof using Type.
  unfold animated_buildings.
  destruct (survey_files_inv [] lmo_files survey_start survey_start_inv)
    as (sv & -> & _ & Hsound & Hcompl & _). cbn [app] in *.
  rewrite bind_Ok.
  destruct (parse_catalog catalog) as [obj_id_to_lmo|e]; [|left; eauto].
  right. rewrite bind_Ok. cbv zeta.
  pose proof (animated_objects_lemma obj_id_to_lmo (lmo_anim_data sv))
    as Hanim.
  destruct (animated_objects (lmo_anim_data sv)
              (reverse_catalog obj_id_to_lmo)) as [ids back].
  destruct Hanim as [Hids _]. cbn [fst].
  destruct (survey_maps_spec ids obj_files (∅, ∅))
    as (st & -> & Hin & _).
  rewrite bind_Ok. exists obj_id_to_lmo, st.1.
  split; [done|]. split; [done|].
  intros map_name obj_id. rewrite Hin. cbn [fst]. rewrite lookup_empty.
  split.
  - intros [?%not_elem_of_empty | (mdata & pl & Hm & Hp & Hpl & Hid)];
      [done|].
    apply Hids in Hid as (name & Hcat & [anims Hl]).
    destruct (Hsound _ _ Hl) as (Hne & ldata & Hfile & Hparse).
    by exists name, ldata, anims, mdata, pl.
  - intros (name & ldata & anims & mdata & pl
              & Hcat & Hfile & Hparse & Hne & Hm & Hp & Hpl).
    right. exists mdata, pl. repeat split; try done.
    apply Hids. exists name. split; [done|]. by eapply Hcompl.
Qed.

(** X20: put together, the passes of [main] report an id as an animated
    building of a map exactly when the catalog maps the id to the name of
    a container file that decodes to a non-empty result and a file of the
    map places the id with kind 0. *)
Theorem animated_buildings_spec (catalog : list byte)
    (lmo_files obj_files : list (str * list byte))
    (obj_id_to_lmo : gmap Z str) (result : gmap str (gset Z))
    (map_name : str) (obj_id : Z) :
  parse_catalog catalog = Ok obj_id_to_lmo →
  buildings catalog lmo_files obj_files = Ok result →
  obj_id ∈ default ∅ (result !! map_name)
  ↔ ∃ lmo_name lmo_data anims map_data placements,
      obj_id_to_lmo !! obj_id = Some lmo_name
      ∧ (lmo_name, lmo_data) ∈ lmo_files
      ∧ parse_lmo_animations lmo_data = Ok anims ∧ anims ≠ []
      ∧ (map_name, map_data) ∈ obj_files
      ∧ parse_obj_file map_data = Ok placements
      ∧ (0, obj_id) ∈ placements.
Proof using Type.
  intros Hcat Hrun.
  destruct (animated_buildings_cases catalog lmo_files obj_files)
    as [(e & He & _) | (cat & res & Hcat' & Hrun' & Hspec)].
  - rewrite Hcat in He. discriminate.
  - rewrite Hcat in Hcat'. inversion Hcat'; subst cat.
    rewrite Hrun in Hrun'. inversion Hrun'; subst res. apply Hspec.
Qed.

(** X21: the only exception of the passes put together is that of the
    catalog decoder: they raise exactly when it does, with its
    exception, whatever the container files and the map files hold. *)
Theorem animated_buildings_raises_iff (catalog : list byte)
    (lmo_files obj_files : list (str * list byte)) (e : exn) :
  buildings catalog lmo_files obj_files = Raise e
  ↔ parse_catalog catalog = Raise e.
Proof using Type.
  destruct (animated_buildings_cases catalog lmo_files obj_files)
    as [(e' & -> & ->) | (cat & res & -> & -> & _)].
  - split; intros [= ->]; reflexivity.
  - split; discriminate.
Qed.
End MainProps.

Lemma animated_buildings_spec_witness :
  ∃ result,
    animated_buildings decode_bytewise keep_text keep_text
      one_record_catalog [([97%N], one_object_file 636 648)]
      [([109%N], two_section_file)] = Ok result
    ∧ 42 ∈ default ∅ (result !! [109%N]).
Proof.
  destruct (animated_buildings decode_bytewise keep_text keep_text
              one_record_catalog [([97%N], one_object_file 636 648)]
              [([109%N], two_section_file)]) as [result|e] eqn:Hrun;
    [|vm_compute in Hrun; discriminate].
  destruct (parse_sceneobjinfo_bin decode_bytewise keep_text keep_text
              one_record_catalog) as [cat|e] eqn:Hcat;
    [|vm_compute in Hcat; discriminate].
  exists result. split; [done|].
  apply (animated_buildings_spec decode_bytewise keep_text keep_text
           _ _ _ cat result [109%N] 42 Hcat Hrun).
  exists [97%N], (one_object_file 636 648), [(0, uv_only_info)],
    two_section_file, [(0, 42)].
  split; [vm_compute in Hcat; inversion Hcat; vm_compute; reflexivity|].
  split; [apply list_elem_of_here|].
  split; [vm_compute; reflexivity|]. split; [done|].
  split; [apply list_elem_of_here|].
  split; [vm_compute; reflexivity | apply list_elem_of_here].
Defined.
